(** * A shallow embedding of the HTTP server of [src/http_server.ts]

    The development follows the layout of the source file: types, the TCP
    wrapper, the dynamic buffer, header parsing, header lookup, the body
    readers, the response writer and the server loop.  JavaScript numbers are
    integers of [Z] (every number the program handles is an index, a length or
    a parsed decimal; [NaN] is the [None] of an [option Z]), a [Buffer] is a
    list of bytes, a JavaScript string is the list of its UTF-16 code units.

    A JavaScript number is a double: it holds every integer up to [2^53] in
    magnitude and rounds beyond.  The integers of [Z] agree with the program's
    numbers up to that bound only, so every property that depends on the
    value of a parsed or counted number carries the bound as a hypothesis. *)

From Stdlib Require Import ZArith NArith List Bool Lia.
From Stdlib Require Import Strings.String Strings.Ascii Strings.Byte.
From Stdlib Require Import DecimalString DecimalPos.
Import ListNotations.
Open Scope Z_scope.

Set Implicit Arguments.

(* ================================================================== *)
(** ** Platform values: buffers, strings, exceptions                   *)
(* ================================================================== *)

Definition Buffer := list byte.

(** A JavaScript string, as the sequence of its UTF-16 code units. *)
Definition jsstring := list N.

(** [x.length], for buffers, strings and arrays alike. *)
Definition len {A : Type} (l : list A) : Z := Z.of_nat (List.length l).

(** String and buffer literals of the source. *)
Definition lit (s : string) : jsstring :=
  List.map N_of_ascii (list_ascii_of_string s).

Definition blit (s : string) : Buffer := list_byte_of_string s.

(** What the program can throw: its own [HTTPError], a plain [Error], and
    the [RangeError] of [Buffer.copy] on an offset out of range. *)
Inductive exn : Type :=
| HTTPError (code : Z) (message : string)
| Error (message : string)
| RangeError (what : string).

(** The outcome of a computation: a value, an exception, or a loop of the
    model that was cut by its fuel. *)
Inductive result (A : Type) : Type :=
| Ok (a : A)
| Throw (e : exn)
| OutOfFuel.

Arguments Ok {A} a.
Arguments Throw {A} e.
Arguments OutOfFuel {A}.

Definition rbind {A B : Type} (r : result A) (k : A -> result B) : result B :=
  match r with
  | Ok a => k a
  | Throw e => Throw e
  | OutOfFuel => OutOfFuel
  end.

Declare Scope res_scope.
Delimit Scope res_scope with res.
Notation "x <- r ;; k" := (rbind r (fun x => k))
  (at level 61, r at next level, right associativity) : res_scope.

(** [Buffer.alloc(n)]: [n] zero bytes. *)
Definition Buffer_alloc (n : Z) : Buffer := repeat "000"%byte (Z.to_nat n).

(** [b.subarray(start, end)]: a negative index counts from the end, and
    both indices are clamped to the buffer. *)
Definition rel_index (n i : Z) : Z :=
  if i <? 0 then Z.max (n + i) 0 else Z.min i n.

Definition subarray (b : Buffer) (start stop : Z) : Buffer :=
  let s := rel_index (len b) start in
  let e := rel_index (len b) stop in
  firstn (Z.to_nat (e - s)) (skipn (Z.to_nat s) b).

(** [source.copy(target, targetStart, sourceStart, sourceEnd)], returning the
    target after the copy.  Node raises a [RangeError] on a negative offset
    and on a [sourceStart] past the source; it copies nothing when the target
    offset is past the target or the source range is empty; and it copies no
    more than fits in the target and is present in the source.  The copy
    reads the source before it writes (it is a [memmove]), so the source may
    be the target. *)
Definition Buffer_copy (source target : Buffer)
           (targetStart sourceStart sourceEnd : Z) : result Buffer :=
  if targetStart <? 0 then Throw (RangeError "targetStart")
  else if (sourceStart <? 0) || (len source <? sourceStart)
       then Throw (RangeError "sourceStart")
  else if sourceEnd <? 0 then Throw (RangeError "sourceEnd")
  else if (len target <=? targetStart) || (sourceEnd <=? sourceStart)
       then Ok target
  else
    let nb := Z.min (Z.min (sourceEnd - sourceStart) (len target - targetStart))
                    (len source - sourceStart) in
    Ok (firstn (Z.to_nat targetStart) target
        ++ firstn (Z.to_nat nb) (skipn (Z.to_nat sourceStart) source)
        ++ skipn (Z.to_nat (targetStart + nb)) target).

(* ================================================================== *)
(** ** Strings                                                         *)
(* ================================================================== *)

Fixpoint prefixb {A : Type} (eqb : A -> A -> bool) (p s : list A) : bool :=
  match p, s with
  | [], _ => true
  | _ :: _, [] => false
  | x :: p', y :: s' => eqb x y && prefixb eqb p' s'
  end.

(** [s.indexOf(p)], counted from [i]: the position of the first occurrence,
    [-1] when there is none. *)
Fixpoint indexOf_from {A : Type} (eqb : A -> A -> bool) (p s : list A) (i : Z) : Z :=
  if prefixb eqb p s then i
  else match s with
       | [] => -1
       | _ :: t => indexOf_from eqb p t (i + 1)
       end.

Definition str_indexOf (s p : jsstring) : Z := indexOf_from N.eqb p s 0.

Definition str_eqb (a b : jsstring) : bool :=
  if list_eq_dec N.eq_dec a b then true else false.

Definition startsWith (s p : jsstring) : bool := prefixb N.eqb p s.

(** [s.slice(a)] and [s.slice(a, b)] at the non-negative offsets the source
    passes. *)
Definition slice_from (s : jsstring) (a : Z) : jsstring := skipn (Z.to_nat a) s.
Definition slice (s : jsstring) (a b : Z) : jsstring :=
  firstn (Z.to_nat (b - a)) (skipn (Z.to_nat a) s).

(** White space and line terminators of ECMAScript, which [trim] and
    [parseInt] strip. *)
Definition is_space (c : N) : bool :=
  ((9 <=? c) && (c <=? 13) || (c =? 32) || (c =? 160) || (c =? 5760)
   || ((8192 <=? c) && (c <=? 8202)) || (c =? 8232) || (c =? 8233)
   || (c =? 8239) || (c =? 8287) || (c =? 12288) || (c =? 65279))%N.

Fixpoint trimStart (s : jsstring) : jsstring :=
  match s with
  | c :: t => if is_space c then trimStart t else s
  | [] => []
  end.

Definition trimEnd (s : jsstring) : jsstring := rev (trimStart (rev s)).

Definition trim (s : jsstring) : jsstring := trimEnd (trimStart s).

(** [s.split(sep)] for a non-empty separator: the segments between the
    occurrences of [sep], found left to right without overlap.  [skip]
    counts the code units of a matched separator still to be passed. *)
Fixpoint split_go (sep s : jsstring) (skip : nat) (cur : jsstring) : list jsstring :=
  match s with
  | [] => [cur]
  | c :: t =>
      match skip with
      | S k => split_go sep t k cur
      | O => if prefixb N.eqb sep s
             then cur :: split_go sep t (List.length sep - 1) []
             else split_go sep t 0 (cur ++ [c])
      end
  end.

Definition split (s sep : jsstring) : list jsstring := split_go sep s 0 [].

(** [s.toLowerCase()] on the Latin-1 range, where every string it is applied
    to lives: [fieldGet] decodes its lines as latin1, and the keys its
    callers pass are the ASCII literals [Content-Length] and
    [Transfer-Encoding].  Code units above [0xFF] are left as they are. *)
Definition lower_unit (c : N) : N :=
  (if ((65 <=? c) && (c <=? 90))
      || ((192 <=? c) && (c <=? 222) && negb (c =? 215))
   then c + 32 else c)%N.

Definition toLowerCase (s : jsstring) : jsstring := List.map lower_unit s.

(** [b.toString("latin1")]: one code unit per byte. *)
Definition toString_latin1 (b : Buffer) : jsstring := List.map Byte.to_N b.

Definition byte_of_N (n : N) : byte :=
  match Byte.of_N (n mod 256) with
  | Some b => b
  | None => "000"%byte
  end.

(** *** UTF-8

    [b.toString()] decodes UTF-8 and [Buffer.from(s)] encodes it.  The decoder
    is the one of the Encoding standard, which Node follows: an ill-formed
    sequence becomes U+FFFD and the byte that broke it is read again. *)

Definition utf8_state : Type := (N * N * N * N)%type. (* code point, bytes needed, lower, upper *)

Definition utf8_start (b : N) : list N * option utf8_state :=
  (if b <=? 127 then ([b], None)
   else if (194 <=? b) && (b <=? 223) then ([], Some (N.land b 31, 1, 128, 191))
   else if (224 <=? b) && (b <=? 239)
        then ([], Some (N.land b 15, 2,
                        (if b =? 224 then 160 else 128),
                        (if b =? 237 then 159 else 191)))
   else if (240 <=? b) && (b <=? 244)
        then ([], Some (N.land b 7, 3,
                        (if b =? 240 then 144 else 128),
                        (if b =? 244 then 143 else 191)))
   else ([65533], None))%N.

Definition utf8_step (st : option utf8_state) (b : N) : list N * option utf8_state :=
  match st with
  | None => utf8_start b
  | Some (cp, needed, lo, hi) =>
      if ((lo <=? b) && (b <=? hi))%N
      then let cp' := (cp * 64 + N.land b 63)%N in
           if (needed =? 1)%N then ([cp'], None)
           else ([], Some (cp', (needed - 1)%N, 128%N, 191%N))
      else let (out, st') := utf8_start b in (65533%N :: out, st')
  end.

Fixpoint utf8_run (st : option utf8_state) (bs : list N) : list N :=
  match bs with
  | [] => match st with None => [] | Some _ => [65533%N] end
  | b :: t => let (out, st') := utf8_step st b in out ++ utf8_run st' t
  end.

(** The UTF-16 code units of a code point. *)
Definition units_of (cp : N) : list N :=
  (if cp <? 65536 then [cp]
   else [55296 + (cp - 65536) / 1024; 56320 + (cp - 65536) mod 1024])%N.

Definition toString (b : Buffer) : jsstring :=
  flat_map units_of (utf8_run None (List.map Byte.to_N b)).

Definition is_high (c : N) : bool := ((55296 <=? c) && (c <=? 56319))%N.
Definition is_low (c : N) : bool := ((56320 <=? c) && (c <=? 57343))%N.

Definition utf8_bytes (cp : N) : list N :=
  (if cp <? 128 then [cp]
   else if cp <? 2048 then [192 + cp / 64; 128 + cp mod 64]
   else if cp <? 65536 then [224 + cp / 4096; 128 + (cp / 64) mod 64; 128 + cp mod 64]
   else [240 + cp / 262144; 128 + (cp / 4096) mod 64;
         128 + (cp / 64) mod 64; 128 + cp mod 64])%N.

Fixpoint utf8_encode (s : jsstring) : list N :=
  match s with
  | [] => []
  | c :: t =>
      if is_high c then
        match t with
        | d :: t' =>
            if is_low d
            then utf8_bytes (65536 + (c - 55296) * 1024 + (d - 56320))%N ++ utf8_encode t'
            else utf8_bytes 65533%N ++ utf8_encode t
        | [] => utf8_bytes 65533%N
        end
      else if is_low c then utf8_bytes 65533%N ++ utf8_encode t
      else utf8_bytes c ++ utf8_encode t
  end.

(** [Buffer.from(s)] for a string [s]. *)
Definition Buffer_from (s : jsstring) : Buffer := List.map byte_of_N (utf8_encode s).

Definition buf_eqb (a b : Buffer) : bool :=
  if list_eq_dec Byte.byte_eq_dec a b then true else false.

(** [b.indexOf(s)] for a string [s]: the first occurrence of its bytes. *)
Definition buf_indexOf (b : Buffer) (p : jsstring) : Z :=
  indexOf_from Byte.eqb (Buffer_from p) b 0.

(* ================================================================== *)
(** ** Dynamic buffer                                                  *)
(* ================================================================== *)

(** [type DynBuf = { data: Buffer; length: number }]: [data] is the
    allocated region, its first [length] bytes are the content. *)
Record DynBuf : Type := mkDynBuf { data : Buffer; length : Z }.

(** The bytes the buffer logically holds, [buf.data.subarray(0, buf.length)]. *)
Definition content (buf : DynBuf) : Buffer := subarray (data buf) 0 (length buf).

Definition capacity (buf : DynBuf) : Z := len (data buf).

(** The invariant of the data model: the length is within the capacity. *)
Definition wf (buf : DynBuf) : Prop := 0 <= length buf <= capacity buf.

(** [while (cap < newLen) cap *= 2]; the loop runs at most [newLen] times
    from a positive [cap] ([growCap_enough]). *)
Fixpoint growCap (fuel : nat) (cap newLen : Z) : Z :=
  match fuel with
  | O => cap
  | S f => if cap <? newLen then growCap f (cap * 2) newLen else cap
  end.

Definition bufPush (buf : DynBuf) (d : Buffer) : result DynBuf :=
  (let newLen := length buf + len d in
   buf1 <- (if len (data buf) <? newLen then
              (* [buf.data.length || 32]: 32 when the capacity is 0 *)
              let cap := Z.max (if len (data buf) =? 0 then 32 else len (data buf)) 32 in
              let cap := growCap (Z.to_nat newLen) cap newLen in
              grown <- Buffer_copy (data buf) (Buffer_alloc cap) 0 0 (length buf) ;;
              Ok (mkDynBuf grown (length buf))
            else Ok buf) ;;
   data' <- Buffer_copy d (data buf1) (length buf1) 0 (len d) ;;
   Ok (mkDynBuf data' newLen))%res.

Definition bufPop (buf : DynBuf) (n : Z) : result DynBuf :=
  (data' <- Buffer_copy (data buf) (data buf) 0 n (length buf) ;;
   Ok (mkDynBuf data' (length buf - n)))%res.

(* ================================================================== *)
(** ** Header parsing                                                  *)
(* ================================================================== *)

(** [type HTTPReq = { method; uri; version; headers }]. *)
Record HTTPReq : Type := mkHTTPReq {
  method : jsstring;
  uri : Buffer;
  version : jsstring;
  headers : list Buffer
}.

Definition kMaxHeaderLen : Z := 8 * 1024.

Definition CRLF : jsstring := lit (String "013" (String "010" EmptyString)).
Definition CRLFCRLF : jsstring := CRLF ++ CRLF.

Definition splitLines (d : Buffer) : list Buffer :=
  List.map Buffer_from (split (toString d) CRLF).

Definition parseRequestLine (line : Buffer) : result (jsstring * Buffer * jsstring) :=
  let parts := split (trim (toString line)) (lit " ") in
  match parts with
  | [method; uriStr; version] =>
      if negb (startsWith version (lit "HTTP/"))
      then Throw (HTTPError 400 "bad version")
      else Ok (method, Buffer_from uriStr, slice_from version 5)
  | _ => (* [parts.length !== 3] *) Throw (HTTPError 400 "bad request line")
  end.

(** The class of [/^[!#$%&'*+\-.^_`|~0-9A-Za-z]+$/]. *)
Definition is_tchar (c : N) : bool :=
  ((c =? 33) || ((35 <=? c) && (c <=? 39)) || (c =? 42) || (c =? 43)
   || (c =? 45) || (c =? 46) || (c =? 94) || (c =? 95) || (c =? 96)
   || (c =? 124) || (c =? 126)
   || ((48 <=? c) && (c <=? 57)) || ((65 <=? c) && (c <=? 90))
   || ((97 <=? c) && (c <=? 122)))%N.

Definition token_test (name : jsstring) : bool :=
  match name with
  | [] => false
  | _ => forallb is_tchar name
  end.

Definition validateHeader (line : Buffer) : bool :=
  let str := toString line in
  let idx := str_indexOf str (lit ":") in
  if (idx <=? 0) || (idx =? len str - 1) then false
  else token_test (slice str 0 idx).

(** The loop of [parseHTTPReq] over the lines [1 .. lines.length - 2]. *)
Fixpoint parseFields (ls : list Buffer) : result (list Buffer) :=
  match ls with
  | [] => Ok []
  | h :: t =>
      if negb (validateHeader h) then Throw (HTTPError 400 "bad field")
      else (hs <- parseFields t ;; Ok (h :: hs))%res
  end.

Definition parseHTTPReq (d : Buffer) : result HTTPReq :=
  let lines := splitLines d in
  (* [split] returns at least one segment, so [lines[0]] is there *)
  (mu <- parseRequestLine (hd [] lines) ;;
   let '(method, uri, version) := mu in
   headers <- parseFields (removelast (tl lines)) ;;
   Ok (mkHTTPReq method uri version headers))%res.

(** [cutMessage] reads and pops the buffer it is given; it returns the
    buffer after the call next to the message, [None] for [null]. *)
Definition cutMessage (buf : DynBuf) : result (option HTTPReq * DynBuf) :=
  let view := subarray (data buf) 0 (length buf) in
  let idx := buf_indexOf view CRLFCRLF in
  if idx <? 0 then
    if length buf >=? kMaxHeaderLen then Throw (HTTPError 413 "header too large")
    else Ok (None, buf)
  else
    (msg <- parseHTTPReq (subarray view 0 (idx + 4)) ;;
     buf' <- bufPop buf (idx + 4) ;;
     Ok (Some msg, buf'))%res.

(* ================================================================== *)
(** ** Header lookup                                                   *)
(* ================================================================== *)

Fixpoint fieldGet_lower (hs : list Buffer) (lower : jsstring) : option Buffer :=
  match hs with
  | [] => None
  | h :: t =>
      let str := toString_latin1 h in
      let colon := str_indexOf str (lit ":") in
      if colon <=? 0 then fieldGet_lower t lower
      else
        let name := toLowerCase (trim (slice str 0 colon)) in
        if str_eqb name lower
        then Some (Buffer_from (trim (slice_from str (colon + 1))))
        else fieldGet_lower t lower
  end.

Definition fieldGet (hs : list Buffer) (key : jsstring) : option Buffer :=
  fieldGet_lower hs (toLowerCase key).

(** [parseInt(str, 10)]: leading white space is skipped, one sign is read,
    then the longest run of decimal digits; no digit gives [NaN] ([None]).
    The value is the exact integer, which is the double [parseInt] returns
    as long as it is at most [2^53] in magnitude; a longer numeral is
    rounded by [parseInt] and not here. *)
Definition is_digit (c : N) : bool := ((48 <=? c) && (c <=? 57))%N.

Fixpoint digits_of (s : jsstring) : jsstring :=
  match s with
  | c :: t => if is_digit c then c :: digits_of t else []
  | [] => []
  end.

Definition digits_value (ds : jsstring) : Z :=
  fold_left (fun acc d => acc * 10 + (Z.of_N d - 48)) ds 0.

Definition parseInt10 (str : jsstring) : option Z :=
  let s := trimStart str in
  let '(sign, s) :=
    match s with
    | c :: t => if (c =? 45)%N then (-1, t)
                else if (c =? 43)%N then (1, t) else (1, s)
    | [] => (1, s)
    end in
  match digits_of s with
  | [] => None
  | ds => Some (sign * digits_value ds)
  end.

Definition parseDec (str : jsstring) : option Z := parseInt10 str.

(* ================================================================== *)
(** ** The connection: TCP wrapper and shared state                    *)
(* ================================================================== *)

(** What happens on the socket, in order. *)
Inductive Event : Type :=
| EvRead (d : Buffer)     (* a [soRead] resolved with [d] *)
| EvWrite (d : Buffer)    (* a [soWrite] of [d] *)
| EvDestroy.              (* [socket.destroy()] *)

(** The state one connection's code runs in: the chunks the socket is still
    to deliver ([incoming]; after the last one every read resolves with the
    empty buffer of the "end" event), the socket's log, and the one [DynBuf]
    that [serveClient] allocates and that the body readers hold a reference
    to.  The connections described are those of a peer that sends finitely
    many chunks and then closes, on a socket without errors: the "error"
    event, which rejects a pending read or a write, and a peer that stays
    silent, for which a read never resolves, are not among them. *)
Record World : Type := mkWorld {
  incoming : list Buffer;
  trace : list Event;
  dynbuf : DynBuf
}.

Definition M (A : Type) : Type := World -> result A * World.

Definition ret {A : Type} (a : A) : M A := fun w => (Ok a, w).

Definition bind {A B : Type} (m : M A) (k : A -> M B) : M B :=
  fun w => match m w with
           | (Ok a, w') => k a w'
           | (Throw e, w') => (Throw e, w')
           | (OutOfFuel, w') => (OutOfFuel, w')
           end.

Definition throw {A : Type} (e : exn) : M A := fun w => (Throw e, w).
Definition diverge {A : Type} : M A := fun w => (OutOfFuel, w).
Definition lift {A : Type} (r : result A) : M A := fun w => (r, w).

Declare Scope conn_scope.
Delimit Scope conn_scope with conn.
Notation "x <- m ;; k" := (bind m (fun x => k))
  (at level 61, m at next level, right associativity) : conn_scope.
Notation "m ;;; k" := (bind m (fun _ => k))
  (at level 61, right associativity) : conn_scope.

Definition getBuf : M DynBuf := fun w => (Ok (dynbuf w), w).
Definition setBuf (b : DynBuf) : M unit :=
  fun w => (Ok tt, mkWorld (incoming w) (trace w) b).

Definition log (e : Event) : M unit :=
  fun w => (Ok tt, mkWorld (incoming w) (trace w ++ [e]) (dynbuf w)).

(** [soRead]: the promise resolves with the next chunk, or with the empty
    buffer at the end of the stream. *)
Definition soRead : M Buffer :=
  fun w => match incoming w with
           | [] => (Ok [], mkWorld [] (trace w ++ [EvRead []]) (dynbuf w))
           | d :: rest => (Ok d, mkWorld rest (trace w ++ [EvRead d]) (dynbuf w))
           end.

(** [soWrite]: the socket takes the bytes and the promise resolves. *)
Definition soWrite (d : Buffer) : M unit := log (EvWrite d).

(* ================================================================== *)
(** ** Body readers                                                    *)
(* ================================================================== *)

(** [type BodyReader = { length; read }].  A [read] closure is its code and
    the variables it captured: [remain] for [readerFromConLength] (the
    connection and the buffer it also captured are the ones of [World]),
    [data] and [done] for [readerFromMemory]. *)
Inductive ReadClosure : Type :=
| ConLengthRead (remain : Z)
| MemoryRead (payload : Buffer) (done : bool).

Record BodyReader : Type := mkBodyReader {
  body_length : Z;          (* the field [length] *)
  read_closure : ReadClosure
}.

Definition readerFromConLength (remain : Z) : BodyReader :=
  mkBodyReader remain (ConLengthRead remain).

Definition readerFromMemory (d : Buffer) : BodyReader :=
  mkBodyReader (len d) (MemoryRead d false).

(** [await r.read()]: the chunk, and the reader with its closure variables
    after the call. *)
Definition read (r : BodyReader) : M (Buffer * BodyReader) :=
  (match read_closure r with
   | ConLengthRead remain =>
       if remain =? 0 then ret (Buffer_from (lit ""), r)
       else
         buf <- getBuf ;;
         (if length buf =? 0 then
            d <- soRead ;;
            buf' <- lift (bufPush buf d) ;;
            setBuf buf' ;;;
            if len d =? 0 then throw (Error "Unexpected EOF in body") else ret tt
          else ret tt) ;;;
         buf <- getBuf ;;
         let consume := Z.min (length buf) remain in
         let remain := remain - consume in
         let chunk := subarray (data buf) 0 consume in
         buf' <- lift (bufPop buf consume) ;;
         setBuf buf' ;;;
         ret (chunk, mkBodyReader (body_length r) (ConLengthRead remain))
   | MemoryRead payload done =>
       (* [if (done) Buffer.from("");] builds an empty buffer and drops it *)
       let _ := if done then Buffer_from (lit "") else [] in
       ret (payload, mkBodyReader (body_length r) (MemoryRead payload true))
   end)%conn.

(** [readerFromReq]; the connection and the buffer it passes on are the
    ones of [World]. *)
Definition readerFromReq (req : HTTPReq) : result BodyReader :=
  (bodyLen <- match fieldGet (headers req) (lit "Content-Length") with
              | Some cl =>
                  match parseDec (toString_latin1 cl) with
                  | None => Throw (HTTPError 400 "bad Content-Length")
                  | Some n => Ok n
                  end
              | None => Ok (-1)
              end ;;
   let bodyAllowed :=
     negb (str_eqb (method req) (lit "GET") || str_eqb (method req) (lit "HEAD")) in
   let chunked :=
     match fieldGet (headers req) (lit "Transfer-Encoding") with
     | Some te => buf_eqb te (Buffer_from (lit "chunked"))
     | None => false
     end in
   if negb bodyAllowed && ((bodyLen >? 0) || chunked)
   then Throw (HTTPError 400 "HTTP body not allowed")
   else
     let bodyLen := if negb bodyAllowed then 0 else bodyLen in
     if bodyLen >=? 0 then Ok (readerFromConLength bodyLen)
     else if chunked then Throw (HTTPError 501 "chunked not implemented")
     else Throw (HTTPError 501 "unknown body type"))%res.

(* ================================================================== *)
(** ** Response handler, encoder and writer                            *)
(* ================================================================== *)

Record HTTPRes : Type := mkHTTPRes {
  code : Z;
  res_headers : list Buffer;
  body : BodyReader
}.

Definition LF : string := String "010" EmptyString.

Definition HandleReq (req : HTTPReq) (reqBody : BodyReader) : HTTPRes :=
  let resp :=
    if str_eqb (toString_latin1 (uri req)) (lit "/echo") then reqBody
    else readerFromMemory (Buffer_from (lit ("Hello World." ++ LF))) in
  mkHTTPRes 200 [Buffer_from (lit "Server:my_first_http_server")] resp.

(** [`${n}`] for an integer [n]: all its decimal digits, which is what the
    template prints for a double up to [2^53] in magnitude. *)
Definition num_to_string (n : Z) : jsstring := lit (NilZero.string_of_int (Z.to_int n)).

Definition encodeHTTPResp (res : HTTPRes) : Buffer :=
  let statusLine := lit "HTTP/1.1 " ++ num_to_string (code res) ++ lit " OK" ++ CRLF in
  let parts := [statusLine]
               ++ List.map (fun h => toString_latin1 h ++ CRLF) (res_headers res)
               ++ [CRLF] in
  Buffer_from (List.concat parts).

(** The loop of [writeHTTPResp] over the body. *)
Fixpoint writeBody (fuel : nat) (b : BodyReader) : M unit :=
  match fuel with
  | O => diverge
  | S f =>
      (cb <- read b ;;
       let '(d, b') := cb in
       if len d =? 0 then ret tt
       else soWrite d ;;; writeBody f b')%conn
  end.

Definition writeHTTPResp (fuel : nat) (resp : HTTPRes) : M unit :=
  (if body_length (body resp) <? 0 then throw (Error "TODO: chunked encoding")
   else
     let resp := mkHTTPRes (code resp)
                   (res_headers resp
                    ++ [Buffer_from (lit "Content-Length: "
                                     ++ num_to_string (body_length (body resp)))])
                   (body resp) in
     soWrite (encodeHTTPResp resp) ;;;
     writeBody fuel (body resp))%conn.

(* ================================================================== *)
(** ** Server loop                                                     *)
(* ================================================================== *)

(** What [serveClient] does with a message [cutMessage] returned: lines
    272-273 of the loop body. *)
Definition serveMessage (msg : HTTPReq) : M HTTPRes :=
  (reqBody <- lift (readerFromReq msg) ;;
   ret (HandleReq msg reqBody))%conn.

(** The [while (true)] of [serveClient]. *)
Fixpoint serveLoop (fuel : nat) : M unit :=
  match fuel with
  | O => diverge
  | S f =>
      (buf <- getBuf ;;
       cut <- lift (cutMessage buf) ;;
       let '(msg, buf) := cut in
       setBuf buf ;;;
       match msg with
       | None =>
           d <- soRead ;;
           buf' <- lift (bufPush buf d) ;;
           setBuf buf' ;;;
           if (len d =? 0) && (length buf' =? 0) then ret tt
           else if len d =? 0 then throw (HTTPError 400 "Unexpected EOF")
           else serveLoop f
       | Some msg =>
           _ <- serveMessage msg ;;
           serveLoop f
       end)%conn
  end.

Definition serveClient (fuel : nat) : M unit :=
  (setBuf (mkDynBuf (Buffer_alloc 0) 0) ;;; serveLoop fuel)%conn.

(** [newConn]: the [try]/[catch]/[finally] around [serveClient]. *)
Definition newConn (fuel : nat) : M unit :=
  fun w =>
    match serveClient fuel w with
    | (Throw (HTTPError c message), w1) =>
        (* the inner [try] ignores what [writeHTTPResp] throws *)
        match writeHTTPResp fuel
                (mkHTTPRes c [] (readerFromMemory (Buffer_from (lit (message ++ LF)))))
                w1 with
        | (OutOfFuel, w2) => (OutOfFuel, w2)
        | (_, w2) => log EvDestroy w2
        end
    | (OutOfFuel, w1) => (OutOfFuel, w1)
    | (_, w1) => log EvDestroy w1
    end.

(** The world a connection starts in: [chunks] to come, nothing logged. *)
Definition connect (chunks : list Buffer) : World :=
  mkWorld chunks [] (mkDynBuf [] 0).

(* ================================================================== *)
(** * The vocabulary of the properties                               *)
(* ================================================================== *)

(** The four bytes that end a header block. *)
Definition terminator : Buffer := ["013"; "010"; "013"; "010"]%byte.

(** [b] holds the terminator somewhere. *)
Definition has_terminator (b : Buffer) : Prop :=
  exists l1 l2, b = l1 ++ terminator ++ l2.

(** The characters of a field name, as the specification lists them. *)
Definition token_chars : jsstring :=
  lit "!#$%&'*+-.^_`|~0123456789ABCDEFGHIJKLMNOPQRSTUVWXYZabcdefghijklmnopqrstuvwxyz".

(** A header line that [validateHeader] is to refuse: no colon; a colon
    first; its first colon last; or a character before the first colon that
    is not a token character. *)
Inductive bad_header_line : jsstring -> Prop :=
| bad_no_colon (s : jsstring) :
    ~ In 58%N s -> bad_header_line s
| bad_colon_first (s : jsstring) :
    bad_header_line (58%N :: s)
| bad_colon_last (name : jsstring) :
    ~ In 58%N name -> bad_header_line (name ++ [58%N])
| bad_name_char (name value : jsstring) (c : N) :
    ~ In 58%N name -> In c name -> ~ In c token_chars ->
    bad_header_line (name ++ 58%N :: value).

(** The tokens of a request line: the line is trimmed, then cut at every
    space. *)
Definition tokens (line : jsstring) : list jsstring := split (trim line) (lit " ").

(** The text of the request line and of the header lines of a block, as
    [parseHTTPReq] reads them off [splitLines]. *)
Definition request_line (d : Buffer) : jsstring := toString (hd [] (splitLines d)).

Definition header_lines (d : Buffer) : list jsstring :=
  List.map toString (removelast (tl (splitLines d))).

(** [s] begins with [p]. *)
Definition has_prefix (p s : jsstring) : Prop := exists rest, s = p ++ rest.

(** What a request says about its body, in the words of the specification:
    the method allows a body; the [Transfer-Encoding] field is exactly
    [chunked]; the [Content-Length] field and the number it parses to. *)
Definition bodyless_method (req : HTTPReq) : Prop :=
  method req = lit "GET" \/ method req = lit "HEAD".

Definition body_allowed (req : HTTPReq) : Prop :=
  method req <> lit "GET" /\ method req <> lit "HEAD".

Definition declares_chunked (req : HTTPReq) : Prop :=
  fieldGet (headers req) (lit "Transfer-Encoding") = Some (blit "chunked").

Definition no_content_length (req : HTTPReq) : Prop :=
  fieldGet (headers req) (lit "Content-Length") = None.

Definition content_length_is (req : HTTPReq) (n : Z) : Prop :=
  exists cl, fieldGet (headers req) (lit "Content-Length") = Some cl
             /\ parseDec (toString_latin1 cl) = Some n.

Definition content_length_unparsable (req : HTTPReq) : Prop :=
  exists cl, fieldGet (headers req) (lit "Content-Length") = Some cl
             /\ parseDec (toString_latin1 cl) = None.

(** A decimal numeral: one digit or more and nothing else; its value, the
    first digit being the most significant. *)
Definition numeral (s : jsstring) : Prop :=
  s <> [] /\ Forall (fun c => (48 <= c <= 57)%N) s.

Fixpoint numeral_value (acc : Z) (s : jsstring) : Z :=
  match s with
  | [] => acc
  | c :: t => numeral_value (10 * acc + Z.of_N (c - 48)) t
  end.

(** The [Content-Length] field is well formed, a decimal numeral, and [n] is
    the number it writes. *)
Definition content_length_decimal (req : HTTPReq) (n : Z) : Prop :=
  exists cl, fieldGet (headers req) (lit "Content-Length") = Some cl
             /\ numeral (toString_latin1 cl)
             /\ numeral_value 0 (toString_latin1 cl) = n.

(** A request that [POST]s with a length and chunked encoding at once. *)
Definition req_length_and_chunked : HTTPReq :=
  mkHTTPReq (lit "POST") (blit "/upload") (lit "1.1")
            [blit "Content-Length: 5"; blit "Transfer-Encoding: chunked"].

(** A chunked [POST] without a length. *)
Definition req_chunked : HTTPReq :=
  mkHTTPReq (lit "POST") (blit "/upload") (lit "1.1")
            [blit "Host: example"; blit "transfer-encoding:  chunked "].

(** The first pull of [r] gives an empty chunk and touches nothing: no
    socket read, no log entry, the buffer as it was. *)
Definition pulls_empty_at_once (r : BodyReader) : Prop :=
  forall w : World, exists r', read r w = (Ok ([], r'), w).

(** The [Content-Length] parses to a positive number. *)
Definition declares_positive_length (req : HTTPReq) : Prop :=
  exists n, content_length_is req n /\ 0 < n.

(** A [GET] whose [Content-Length] is no number. *)
Definition req_get_bad_length : HTTPReq :=
  mkHTTPReq (lit "GET") (blit "/") (lit "1.1") [blit "Content-Length: abc"].

(** [GET] with [Content-Length: 5]. *)
Definition req_get_length : HTTPReq :=
  mkHTTPReq (lit "GET") (blit "/") (lit "1.1") [blit "Content-Length: 5"].

(** The bytes in the buffer when a pull takes its chunk: the content, or,
    for an empty buffer, what the pull's one socket read brings in. *)
Definition buffered_for_pull (w : World) : Buffer :=
  if length (dynbuf w) =? 0 then hd [] (incoming w) else content (dynbuf w).

(** [k] successive pulls: the chunks in order and the reader after them. *)
Fixpoint pulls (k : nat) (r : BodyReader) : M (list Buffer * BodyReader) :=
  match k with
  | O => ret ([], r)
  | S k' =>
      (cr <- read r ;;
       let '(c, r') := cr in
       rest <- pulls k' r' ;;
       let '(cs, r'') := rest in
       ret (c :: cs, r''))%conn
  end.

(** The bytes a connection still holds for its reader: the content of the
    buffer, then what the socket is to deliver. *)
Definition stream (w : World) : Buffer :=
  content (dynbuf w) ++ List.concat (incoming w).

(** A chunk a [data] event delivers: it is not the empty buffer of [end]. *)
Definition nonempty (d : Buffer) : Prop := d <> [].

(** A [POST] of eleven bytes. *)
Definition req_post_11 : HTTPReq :=
  mkHTTPReq (lit "POST") (blit "/echo") (lit "1.1")
            [blit "Host: example"; blit "Content-Length: 11"].

(** Four bytes of the body came with the header block, the rest comes in
    two reads, the second with the start of the next request. *)
Definition world_split_body : World :=
  mkWorld [blit "o wo"; blit "rldGET /"] [] (mkDynBuf (blit "hell") 4).

(** The payload [HandleReq] answers with. *)
Definition hello_world : Buffer := Buffer_from (lit ("Hello World." ++ LF)).

(** The buffers written on the socket, in order. *)
Fixpoint writes (t : list Event) : list Buffer :=
  match t with
  | [] => []
  | EvWrite d :: t' => d :: writes t'
  | _ :: t' => writes t'
  end.

(** A computation is quiet when it writes nothing on the socket. *)
Definition quiet {A : Type} (m : M A) : Prop :=
  forall w : World, writes (trace (snd (m w))) = writes (trace w).

(** The decoder waits for continuation bytes only: its lower bound is never
    below [0x80], so an ASCII byte always ends a pending sequence. *)
Definition utf8_state_ok (st : option utf8_state) : Prop :=
  match st with
  | None => True
  | Some (_, _, lo, _) => (128 <= lo)%N
  end.

(** The terminator as numbers: its bytes, and the code units they decode to. *)
Definition CRLFCRLF_units : list N := [13; 10; 13; 10]%N.

(** A well-formed request for [/], as one chunk on the wire, and the
    message it denotes. *)
Definition CR_LF : string := String "013" LF.

Definition get_root_wire : Buffer :=
  blit ("GET / HTTP/1.1" ++ CR_LF ++ "Host: example" ++ CR_LF ++ CR_LF).

Definition get_root : HTTPReq :=
  mkHTTPReq (lit "GET") (blit "/") (lit "1.1") [blit "Host: example"].

(** A header block on the wire: its lines, each ended by CRLF, and the
    blank line. *)
Definition block (lines : list string) : Buffer :=
  blit (String.concat CR_LF lines ++ CR_LF ++ CR_LF).

(** *** Header lookup *)

(** The latin1 text of [h] reads [name ":" rest], the colon being its first
    one and the name not empty. *)
Definition field_line (h : Buffer) (name rest : jsstring) : Prop :=
  toString_latin1 h = name ++ 58%N :: rest /\ ~ In 58%N name /\ name <> [].

(** [h] is a line for [key] with [value]: its name, trimmed, is [key] up to
    case, and [value] is its rest, trimmed and encoded. *)
Definition line_names (h : Buffer) (key : jsstring) (value : Buffer) : Prop :=
  exists name rest,
    field_line h name rest
    /\ toLowerCase (trim name) = toLowerCase key
    /\ value = Buffer_from (trim rest).

(** [h] is no line for [key]: it has no colon, starts with one, or has
    another name. *)
Definition line_misses (h : Buffer) (key : jsstring) : Prop :=
  ~ In 58%N (toString_latin1 h)
  \/ (exists rest, toString_latin1 h = 58%N :: rest)
  \/ (exists name rest,
        field_line h name rest /\ toLowerCase (trim name) <> toLowerCase key).

(** Text of the ASCII range, digits, and what a text starts with. *)
Definition ascii_text (s : jsstring) : Prop := Forall (fun c => (c < 128)%N) s.

Definition all_digits (s : jsstring) : Prop := Forall (fun c => is_digit c = true) s.

Definition all_spaces (s : jsstring) : Prop := Forall (fun c => is_space c = true) s.

Definition starts_with_digit (s : jsstring) : Prop :=
  match s with
  | c :: _ => is_digit c = true
  | [] => False
  end.

(** *** Sequences of pushes, joined lines *)

(** [bufPush] of each chunk in turn. *)
Fixpoint bufPushAll (buf : DynBuf) (ds : list Buffer) : result DynBuf :=
  match ds with
  | [] => Ok buf
  | d :: rest => (buf' <- bufPush buf d ;; bufPushAll buf' rest)%res
  end.

(** The segments [segs] with [sep] between them. *)
Fixpoint join {A : Type} (sep : list A) (segs : list (list A)) : list A :=
  match segs with
  | [] => []
  | x :: rest =>
      match rest with
      | [] => x
      | _ => x ++ sep ++ join sep rest
      end
  end.

(** Bytes of the ASCII range. *)
Definition ascii_bytes (b : Buffer) : Prop := Forall (fun x => (Byte.to_N x < 128)%N) b.

(** *** Outcomes of the server loop *)

(** How [serveClient] can end: the peer closed between requests, the header
    block grew too large, or the request was refused. *)
Inductive served : result unit -> Prop :=
| served_eof : served (Ok tt)
| served_too_large : served (Throw (HTTPError 413 "header too large"))
| served_bad_request (msg : string) : served (Throw (HTTPError 400 msg)).

(** Text without white space. *)
Definition no_space (s : jsstring) : Prop := Forall (fun c => is_space c = false) s.

(* ================================================================== *)
(** * Properties                                                       *)
(* ================================================================== *)

(** ** Lists and lengths *)

Lemma len_nonneg {A : Type} (l : list A) : 0 <= len l.
Proof. unfold len; lia. Qed.

Lemma len_app {A : Type} (l1 l2 : list A) : len (l1 ++ l2) = len l1 + len l2.
Proof. unfold len; rewrite length_app; lia. Qed.

Lemma len_nil_inv {A : Type} (l : list A) : len l = 0 -> l = [].
Proof. destruct l; [reflexivity | unfold len; simpl; lia]. Qed.

Lemma to_nat_len {A : Type} (l : list A) : Z.to_nat (len l) = List.length l.
Proof. unfold len; lia. Qed.

Lemma len_firstn {A : Type} (l : list A) (n : Z) :
  0 <= n <= len l -> len (firstn (Z.to_nat n) l) = n.
Proof. unfold len; intros H; rewrite length_firstn; lia. Qed.

Lemma len_skipn {A : Type} (l : list A) (n : Z) :
  0 <= n <= len l -> len (skipn (Z.to_nat n) l) = len l - n.
Proof. unfold len; intros H; rewrite length_skipn; lia. Qed.

Lemma len_repeat {A : Type} (x : A) (n : nat) : len (repeat x n) = Z.of_nat n.
Proof. unfold len; now rewrite repeat_length. Qed.

Lemma firstn_app_exact {A : Type} (l1 l2 : list A) (n : nat) :
  n = List.length l1 -> firstn n (l1 ++ l2) = l1.
Proof.
  intros ->. rewrite firstn_app, Nat.sub_diag, firstn_all. simpl.
  now rewrite app_nil_r.
Qed.

Lemma skipn_app_exact_len {A : Type} (l1 l2 : list A) :
  skipn (List.length l1) (l1 ++ l2) = l2.
Proof.
  rewrite skipn_app, Nat.sub_diag, skipn_all. reflexivity.
Qed.

Lemma skipn_firstn_swap {A : Type} (l : list A) (n m : nat) :
  (n <= m)%nat -> skipn n (firstn m l) = firstn (m - n) (skipn n l).
Proof.
  revert l m; induction n as [|n IH]; intros l m H.
  - now rewrite Nat.sub_0_r.
  - destruct m as [|m]; [lia|]. destruct l as [|x l]; simpl.
    + now rewrite firstn_nil.
    + apply IH; lia.
Qed.

(** ** [subarray] and [Buffer.copy] on offsets in range *)

Lemma subarray_prefix (b : Buffer) (n : Z) :
  0 <= n <= len b -> subarray b 0 n = firstn (Z.to_nat n) b.
Proof.
  intros H. unfold subarray, rel_index.
  assert (E0 : (0 <? 0) = false) by reflexivity. rewrite E0.
  destruct (n <? 0) eqn:En; [apply Z.ltb_lt in En; lia|].
  rewrite (Z.min_l 0) by apply len_nonneg.
  rewrite (Z.min_l n) by lia. simpl. now rewrite Z.sub_0_r.
Qed.

Lemma Buffer_copy_in_range (source target : Buffer) (ts ss se : Z) :
  0 <= ts -> 0 <= ss <= se -> se <= len source ->
  ts + (se - ss) <= len target ->
  Buffer_copy source target ts ss se =
  Ok (firstn (Z.to_nat ts) target
      ++ firstn (Z.to_nat (se - ss)) (skipn (Z.to_nat ss) source)
      ++ skipn (Z.to_nat (ts + (se - ss))) target).
Proof.
  intros Hts Hss Hse Hfit. unfold Buffer_copy.
  destruct (ts <? 0) eqn:E1; [apply Z.ltb_lt in E1; lia|].
  destruct (ss <? 0) eqn:E2; [apply Z.ltb_lt in E2; lia|].
  destruct (len source <? ss) eqn:E3; [apply Z.ltb_lt in E3; lia|].
  destruct (se <? 0) eqn:E4; [apply Z.ltb_lt in E4; lia|].
  simpl.
  destruct ((len target <=? ts) || (se <=? ss)) eqn:E5.
  - assert (Hz : se - ss = 0).
    { apply orb_true_iff in E5 as [E5|E5]; apply Z.leb_le in E5; lia. }
    rewrite Hz, Z.add_0_r. simpl. now rewrite firstn_skipn.
  - apply orb_false_iff in E5 as [E5 E6].
    apply Z.leb_gt in E5. apply Z.leb_gt in E6.
    rewrite Z.min_l by lia. rewrite Z.min_l by lia. reflexivity.
Qed.

(** ** The dynamic buffer *)

Lemma content_wf (buf : DynBuf) :
  wf buf -> content buf = firstn (Z.to_nat (length buf)) (data buf).
Proof. intros H. unfold content. now apply subarray_prefix. Qed.

Lemma len_content (buf : DynBuf) : wf buf -> len (content buf) = length buf.
Proof. intros H. rewrite content_wf by assumption. now apply len_firstn. Qed.

Lemma growCap_enough (fuel : nat) : forall cap newLen,
  0 < cap -> newLen <= cap + Z.of_nat fuel -> newLen <= growCap fuel cap newLen.
Proof.
  induction fuel as [|f IH]; intros cap newLen Hc Hf; simpl.
  - lia.
  - destruct (cap <? newLen) eqn:E.
    + apply IH; lia.
    + apply Z.ltb_ge in E. exact E.
Qed.

Lemma growCap_doubles (fuel : nat) : forall cap newLen,
  0 < cap ->
  exists k : Z, 0 <= k /\ growCap fuel cap newLen = cap * 2 ^ k
                /\ (0 < k -> growCap fuel cap newLen < 2 * newLen).
Proof.
  induction fuel as [|f IH]; intros cap newLen Hc; cbn [growCap].
  - exists 0. repeat split; lia.
  - destruct (cap <? newLen) eqn:E.
    + destruct (IH (cap * 2) newLen ltac:(lia)) as (k & Hk & Heq & Hmin).
      exists (k + 1). split; [lia|]. split.
      * rewrite Heq, Z.pow_add_r by lia. change (2 ^ 1) with 2. ring.
      * intros _. destruct (Z.eq_dec k 0) as [->|Hne].
        -- rewrite Heq. change (2 ^ 0) with 1. apply Z.ltb_lt in E. lia.
        -- apply Hmin. lia.
    + exists 0. repeat split; lia.
Qed.

(** What [bufPush] does to a buffer that satisfies the invariant. *)
Lemma bufPush_ok (buf : DynBuf) (d : Buffer) :
  wf buf ->
  exists buf', bufPush buf d = Ok buf'
    /\ wf buf'
    /\ length buf' = length buf + len d
    /\ content buf' = content buf ++ d
    /\ (length buf + len d <= capacity buf -> capacity buf' = capacity buf)
    /\ (capacity buf < length buf + len d ->
        exists k : Z, 0 <= k
          /\ capacity buf' = Z.max (capacity buf) 32 * 2 ^ k
          /\ length buf + len d <= capacity buf'
          /\ (0 < k -> capacity buf' < 2 * (length buf + len d))).
Proof.
  intros [Hl0 Hl]. unfold capacity in *.
  pose proof (len_nonneg d) as Hd.
  assert (Hstep : forall b1 : DynBuf,
             length b1 = length buf ->
             firstn (Z.to_nat (length buf)) (data b1)
             = firstn (Z.to_nat (length buf)) (data buf) ->
             length buf + len d <= len (data b1) ->
             exists buf',
               (data' <- Buffer_copy d (data b1) (length b1) 0 (len d) ;;
                Ok (mkDynBuf data' (length buf + len d)))%res = Ok buf'
               /\ wf buf' /\ length buf' = length buf + len d
               /\ content buf' = content buf ++ d
               /\ len (data buf') = len (data b1)).
  { intros b1 E1 E2 E3.
    rewrite Buffer_copy_in_range by lia.
    rewrite E1, Z.sub_0_r. simpl skipn.
    rewrite (to_nat_len d), firstn_all. simpl rbind.
    eexists. split; [reflexivity|].
    assert (Hlen : len (firstn (Z.to_nat (length buf)) (data b1) ++ d
                        ++ skipn (Z.to_nat (length buf + len d)) (data b1))
                   = len (data b1)).
    { rewrite !len_app, len_firstn, len_skipn by lia. lia. }
    split; [|split; [reflexivity|split]].
    - unfold wf, capacity; simpl. lia.
    - unfold content at 1; simpl.
      rewrite subarray_prefix by (rewrite Hlen; lia).
      rewrite app_assoc, firstn_app_exact.
      + rewrite E2, content_wf by (split; assumption). reflexivity.
      + rewrite length_app, length_firstn.
        unfold len in *. lia.
    - simpl. exact Hlen. }
  unfold bufPush.
  destruct (len (data buf) <? length buf + len d) eqn:E.
  - apply Z.ltb_lt in E.
    set (cap0 := Z.max (if len (data buf) =? 0 then 32 else len (data buf)) 32).
    assert (Hcap0 : cap0 = Z.max (len (data buf)) 32).
    { unfold cap0. destruct (len (data buf) =? 0) eqn:E0; [|reflexivity].
      apply Z.eqb_eq in E0. rewrite E0. reflexivity. }
    set (cap := growCap (Z.to_nat (length buf + len d)) cap0 (length buf + len d)).
    assert (Hcap : length buf + len d <= cap).
    { apply growCap_enough; lia. }
    assert (Halloc : len (Buffer_alloc cap) = cap).
    { unfold Buffer_alloc. rewrite len_repeat. lia. }
    rewrite Buffer_copy_in_range by lia.
    rewrite Z.sub_0_r, Z.add_0_l. change (Z.to_nat 0) with 0%nat.
    cbn [firstn skipn app rbind].
    set (grown := firstn (Z.to_nat (length buf)) (data buf)
                  ++ skipn (Z.to_nat (length buf)) (Buffer_alloc cap)).
    assert (Hgrown : len grown = cap).
    { unfold grown. rewrite len_app, len_firstn, len_skipn by lia. lia. }
    destruct (Hstep (mkDynBuf grown (length buf))) as (buf' & Hrun & Hwf & Hlen & Hc & Hcapa).
    + reflexivity.
    + simpl. unfold grown. apply firstn_app_exact.
      rewrite length_firstn. unfold len in *. lia.
    + simpl. lia.
    + exists buf'. split; [exact Hrun|]. split; [exact Hwf|].
      split; [exact Hlen|]. split; [exact Hc|]. split; [lia|].
      intros _. simpl in Hcapa. rewrite Hcapa, Hgrown.
      assert (Hpos : 0 < cap0) by lia.
      destruct (@growCap_doubles (Z.to_nat (length buf + len d)) cap0
                  (length buf + len d) Hpos) as (k & Hk & Heq & Hmin).
      exists k. fold cap in Heq, Hmin. rewrite <- Hcap0.
      repeat split; assumption.
  - apply Z.ltb_ge in E. simpl rbind.
    destruct (Hstep buf eq_refl eq_refl E) as (buf' & Hrun & Hwf & Hlen & Hc & Hcapa).
    exists buf'. split; [exact Hrun|]. split; [exact Hwf|].
    split; [exact Hlen|]. split; [exact Hc|]. split; [intros _; exact Hcapa|lia].
Qed.

(** What [bufPop] does to a buffer that satisfies the invariant. *)
Lemma bufPop_ok (buf : DynBuf) (n : Z) :
  wf buf -> 0 <= n <= length buf ->
  exists buf', bufPop buf n = Ok buf'
    /\ wf buf'
    /\ length buf' = length buf - n
    /\ content buf' = skipn (Z.to_nat n) (content buf)
    /\ capacity buf' = capacity buf.
Proof.
  intros [Hl0 Hl] Hn. unfold capacity in *. unfold bufPop.
  rewrite Buffer_copy_in_range by lia.
  rewrite Z.add_0_l. change (Z.to_nat 0) with 0%nat.
  cbn [firstn app rbind].
  eexists. split; [reflexivity|].
  assert (Hlen : len (firstn (Z.to_nat (length buf - n)) (skipn (Z.to_nat n) (data buf))
                      ++ skipn (Z.to_nat (length buf - n)) (data buf))
                 = len (data buf)).
  { rewrite len_app, len_firstn, len_skipn; rewrite ?len_skipn; lia. }
  split; [|split; [reflexivity|split]].
  - unfold wf, capacity; simpl. lia.
  - unfold content at 1; simpl.
    rewrite subarray_prefix by (rewrite Hlen; lia).
    rewrite firstn_app_exact.
    + rewrite content_wf by (split; assumption).
      rewrite skipn_firstn_swap by lia. f_equal. lia.
    + rewrite length_firstn, length_skipn. unfold len in *. lia.
  - simpl. exact Hlen.
Qed.

(** C9.  On a buffer that satisfies its invariant, [bufPush d] followed by
    [bufPop n], for [0 <= n <= length] after the push, both succeed and leave
    as content the pushed content without its first [n] bytes, the rest in
    the same order.  The push keeps the capacity when the new length fits;
    otherwise the capacity becomes [max(capacity, 32)] doubled [k] times, with
    [k] the least number of doublings that reach the new length.  The pop
    keeps the capacity. *)
Theorem bufPush_bufPop_prefix_removal (buf : DynBuf) (d : Buffer) (n : Z) :
  wf buf ->
  0 <= n <= length buf + len d ->
  exists pushed popped : DynBuf,
    bufPush buf d = Ok pushed
    /\ bufPop pushed n = Ok popped
    /\ content pushed = content buf ++ d
    /\ content popped = skipn (Z.to_nat n) (content buf ++ d)
    /\ wf pushed /\ wf popped
    /\ capacity popped = capacity pushed
    /\ (length buf + len d <= capacity buf -> capacity pushed = capacity buf)
    /\ (capacity buf < length buf + len d ->
        exists k : Z, 0 <= k
          /\ capacity pushed = Z.max (capacity buf) 32 * 2 ^ k
          /\ length buf + len d <= capacity pushed
          /\ (0 < k -> capacity pushed < 2 * (length buf + len d))).
Proof.
  intros Hwf Hn.
  destruct (bufPush_ok d Hwf) as (pushed & Hpush & Hwf1 & Hlen1 & Hc1 & Hkeep & Hgrow).
  destruct (@bufPop_ok pushed n Hwf1 ltac:(lia))
    as (popped & Hpop & Hwf2 & Hlen2 & Hc2 & Hcap2).
  exists pushed, popped.
  rewrite Hc2, Hc1. repeat split; try assumption; apply Hwf1 || apply Hwf2.
Qed.

Lemma bufPush_bufPop_prefix_removal_witness :
  exists pushed popped : DynBuf,
    bufPush (mkDynBuf (blit "ab") 2) (blit "hello") = Ok pushed
    /\ bufPop pushed 3 = Ok popped
    /\ content pushed = content (mkDynBuf (blit "ab") 2) ++ blit "hello"
    /\ content popped
       = skipn (Z.to_nat 3) (content (mkDynBuf (blit "ab") 2) ++ blit "hello")
    /\ wf pushed /\ wf popped
    /\ capacity popped = capacity pushed
    /\ (length (mkDynBuf (blit "ab") 2) + len (blit "hello")
        <= capacity (mkDynBuf (blit "ab") 2)
        -> capacity pushed = capacity (mkDynBuf (blit "ab") 2))
    /\ (capacity (mkDynBuf (blit "ab") 2)
        < length (mkDynBuf (blit "ab") 2) + len (blit "hello") ->
        exists k : Z, 0 <= k
          /\ capacity pushed = Z.max (capacity (mkDynBuf (blit "ab") 2)) 32 * 2 ^ k
          /\ length (mkDynBuf (blit "ab") 2) + len (blit "hello") <= capacity pushed
          /\ (0 < k -> capacity pushed
                       < 2 * (length (mkDynBuf (blit "ab") 2) + len (blit "hello")))).
Proof.
  apply (@bufPush_bufPop_prefix_removal (mkDynBuf (blit "ab") 2) (blit "hello") 3).
  - split; vm_compute; discriminate.
  - split; vm_compute; discriminate.
Defined.

(** ** Searching: [indexOf] finds an occurrence exactly when there is one *)

Section Search.
Context {A : Type} (eqb : A -> A -> bool).
Hypothesis eqb_eq : forall x y, eqb x y = true <-> x = y.

Lemma prefixb_iff (p s : list A) :
  prefixb eqb p s = true <-> exists t, s = p ++ t.
Proof.
  revert s; induction p as [|x p IH]; intros s; simpl.
  - split; [intros _; now exists s | reflexivity].
  - destruct s as [|y s].
    + split; [discriminate | intros [t Ht]; discriminate].
    + rewrite andb_true_iff, eqb_eq, IH. split.
      * intros [-> [t ->]]. now exists t.
      * intros [t Ht]. injection Ht as -> ->. split; [reflexivity | now exists t].
Qed.

Lemma indexOf_from_spec (p s : list A) : forall i,
  (indexOf_from eqb p s i = -1 /\ forall l1 l2, s <> l1 ++ p ++ l2)
  \/ (exists l1 l2, s = l1 ++ p ++ l2 /\ indexOf_from eqb p s i = i + len l1).
Proof.
  induction s as [|x t IH]; intros i.
  - simpl. destruct (prefixb eqb p []) eqn:E.
    + right. apply prefixb_iff in E as [l2 E]. exists [], l2.
      split; [exact E | unfold len; simpl; lia].
    + left. split; [reflexivity|]. intros l1 l2 H.
      destruct l1; [|discriminate]. simpl in H.
      assert (prefixb eqb p [] = true) by (apply prefixb_iff; now exists l2).
      congruence.
  - cbn [indexOf_from]. destruct (prefixb eqb p (x :: t)) eqn:E.
    + right. apply prefixb_iff in E as [l2 E]. exists [], l2.
      split; [exact E | unfold len; simpl; lia].
    + destruct (IH (i + 1)) as [[Hn Hno] | (l1 & l2 & Hs & Hi)].
      * left. split; [exact Hn|]. intros l1 l2 H.
        destruct l1 as [|y l1]; simpl in H.
        -- assert (prefixb eqb p (x :: t) = true)
             by (apply prefixb_iff; now exists l2).
           congruence.
        -- injection H as _ H. now apply (Hno l1 l2).
      * right. exists (x :: l1), l2. split; [now rewrite Hs|].
        rewrite Hi. unfold len; simpl List.length. lia.
Qed.
End Search.

Lemma byte_eqb_eq (x y : byte) : Byte.eqb x y = true <-> x = y.
Proof.
  split; [apply Byte.byte_dec_bl | apply Byte.byte_dec_lb].
Qed.

Lemma buf_indexOf_terminator (b : Buffer) :
  buf_indexOf b CRLFCRLF < 0 <-> ~ has_terminator b.
Proof.
  unfold buf_indexOf.
  change (Buffer_from CRLFCRLF) with terminator.
  destruct (indexOf_from_spec Byte.eqb byte_eqb_eq terminator b 0)
    as [[Hn Hno] | (l1 & l2 & Hs & Hi)].
  - rewrite Hn. split; [|lia]. intros _ (l1 & l2 & H). now apply (Hno l1 l2).
  - rewrite Hi. pose proof (len_nonneg l1). split; [lia|].
    intros H'. exfalso. apply H'. now exists l1, l2.
Qed.

(** C5.  When the content of the buffer holds no [\r\n\r\n]: with 8192
    buffered bytes or more [cutMessage] throws the 413 protocol error, and
    the loop of [serveClient] throws it with the socket untouched (nothing
    read, nothing logged, the buffer as it was); with fewer bytes
    [cutMessage] returns [null] and leaves the buffer as it was. *)
Theorem cutMessage_without_terminator (buf : DynBuf) :
  ~ has_terminator (content buf) ->
  (kMaxHeaderLen <= length buf ->
   cutMessage buf = Throw (HTTPError 413 "header too large")
   /\ forall (fuel : nat) (w : World),
        dynbuf w = buf ->
        serveLoop (S fuel) w = (Throw (HTTPError 413 "header too large"), w))
  /\ (length buf < kMaxHeaderLen -> cutMessage buf = Ok (None, buf)).
Proof.
  intros Hno. apply buf_indexOf_terminator in Hno. apply Z.ltb_lt in Hno.
  unfold content in Hno.
  assert (Hbig : kMaxHeaderLen <= length buf ->
                 cutMessage buf = Throw (HTTPError 413 "header too large")).
  { intros Hge. unfold cutMessage. rewrite Hno.
    destruct (length buf >=? kMaxHeaderLen) eqn:E; [reflexivity|].
    rewrite Z.geb_leb in E. apply Z.leb_gt in E. lia. }
  split.
  - intros Hge. split; [now apply Hbig|].
    intros fuel w <-. cbn [serveLoop]. unfold bind, getBuf, lift.
    now rewrite (Hbig Hge).
  - intros Hlt. unfold cutMessage. rewrite Hno.
    destruct (length buf >=? kMaxHeaderLen) eqn:E; [|reflexivity].
    rewrite Z.geb_leb in E. apply Z.leb_le in E. lia.
Qed.

Lemma cutMessage_without_terminator_witness :
  (kMaxHeaderLen <= length (mkDynBuf (Buffer_alloc 8192) 8192) ->
   cutMessage (mkDynBuf (Buffer_alloc 8192) 8192)
   = Throw (HTTPError 413 "header too large")
   /\ forall (fuel : nat) (w : World),
        dynbuf w = mkDynBuf (Buffer_alloc 8192) 8192 ->
        serveLoop (S fuel) w = (Throw (HTTPError 413 "header too large"), w))
  /\ (length (mkDynBuf (Buffer_alloc 8192) 8192) < kMaxHeaderLen ->
      cutMessage (mkDynBuf (Buffer_alloc 8192) 8192)
      = Ok (None, mkDynBuf (Buffer_alloc 8192) 8192)).
Proof.
  apply (@cutMessage_without_terminator (mkDynBuf (Buffer_alloc 8192) 8192)).
  apply buf_indexOf_terminator. vm_compute. reflexivity.
Defined.

(** ** Header parsing: what is rejected *)

Lemma N_eqb_eq (x y : N) : N.eqb x y = true <-> x = y.
Proof. apply N.eqb_eq. Qed.

(** The first [c] of a string whose part before it has no [c]. *)
Lemma indexOf_from_first (c : N) (name rest : jsstring) : forall i,
  ~ In c name -> indexOf_from N.eqb [c] (name ++ c :: rest) i = i + len name.
Proof.
  induction name as [|x name IH]; intros i Hnot.
  - cbn [app indexOf_from prefixb]. rewrite N.eqb_refl. cbn [andb].
    unfold len; simpl; lia.
  - assert (Hx : N.eqb c x = false).
    { apply N.eqb_neq. intros ->. apply Hnot. now left. }
    cbn [app indexOf_from prefixb]. rewrite Hx. cbn [andb].
    rewrite IH by (intros H; apply Hnot; now right).
    unfold len; simpl List.length. lia.
Qed.

Lemma str_indexOf_first (c : N) (name rest : jsstring) :
  ~ In c name -> str_indexOf (name ++ c :: rest) [c] = len name.
Proof. intros H. unfold str_indexOf. now rewrite indexOf_from_first. Qed.

Lemma str_indexOf_absent (c : N) (s : jsstring) :
  ~ In c s -> str_indexOf s [c] = -1.
Proof.
  intros Hnot. unfold str_indexOf.
  destruct (indexOf_from_spec N.eqb N_eqb_eq [c] s 0)
    as [[Hn _] | (l1 & l2 & Hs & _)]; [exact Hn|].
  exfalso. apply Hnot. rewrite Hs. apply in_or_app. right. now left.
Qed.

Lemma is_tchar_below (c : N) : is_tchar c = true -> (c < 128)%N.
Proof.
  unfold is_tchar. intros H.
  repeat (apply orb_true_iff in H as [H|H]);
    repeat (apply andb_true_iff in H as [? H]);
    repeat match goal with
           | H : (_ =? _)%N = true |- _ => apply N.eqb_eq in H
           | H : (_ <=? _)%N = true |- _ => apply N.leb_le in H
           end; lia.
Qed.

(** [is_tchar] is the class of the specification. *)
Lemma is_tchar_iff (c : N) : is_tchar c = true <-> In c token_chars.
Proof.
  assert (Hall : forallb (fun n => Bool.eqb (is_tchar n) (existsb (N.eqb n) token_chars))
                         (List.map N.of_nat (seq 0 128)) = true)
    by (vm_compute; reflexivity).
  rewrite forallb_forall in Hall.
  assert (Hin : forall n, (n < 128)%N -> In n (List.map N.of_nat (seq 0 128))).
  { intros n Hn. apply in_map_iff. exists (N.to_nat n). split; [lia|].
    apply in_seq. lia. }
  assert (Hex : existsb (N.eqb c) token_chars = true <-> In c token_chars).
  { rewrite existsb_exists. split.
    - intros (x & Hx & E). apply N.eqb_eq in E. now subst.
    - intros H. exists c. split; [exact H | apply N.eqb_refl]. }
  assert (Hlt : In c token_chars -> (c < 128)%N).
  { intros H.
    assert (G : forallb (fun n => (n <? 128)%N) token_chars = true)
      by (vm_compute; reflexivity).
    rewrite forallb_forall in G. apply N.ltb_lt. now apply G. }
  split; intros H.
  - apply Hex. pose proof (Hall c (Hin c (is_tchar_below c H))) as E.
    apply Bool.eqb_prop in E. congruence.
  - pose proof (Hall c (Hin c (Hlt H))) as E.
    apply Bool.eqb_prop in E. rewrite E. now apply Hex.
Qed.

Lemma validateHeader_refuses (h : Buffer) :
  bad_header_line (toString h) -> validateHeader h = false.
Proof.
  unfold validateHeader. intros H.
  change (lit ":") with [58%N].
  remember (toString h) as str eqn:E. clear E h.
  destruct H as [s Hno | s | name Hno | name value c Hno Hin Hbad].
  - now rewrite str_indexOf_absent.
  - change (58%N :: s) with ([] ++ 58%N :: s).
    rewrite str_indexOf_first by (intros []). reflexivity.
  - rewrite str_indexOf_first by assumption.
    rewrite len_app. change (len [58%N]) with 1.
    destruct (len name <=? 0); [reflexivity|].
    replace (len name + 1 - 1) with (len name) by lia.
    now rewrite Z.eqb_refl.
  - rewrite str_indexOf_first by assumption.
    destruct ((len name <=? 0) || (len name =? len (name ++ 58%N :: value) - 1));
      [reflexivity|].
    unfold slice. rewrite Z.sub_0_r, to_nat_len. cbn [skipn Z.to_nat].
    rewrite firstn_app_exact by reflexivity.
    unfold token_test. destruct name as [|x name]; [reflexivity|].
    apply not_true_iff_false. intros Hall.
    rewrite forallb_forall in Hall. apply Hbad, is_tchar_iff. now apply Hall.
Qed.

Lemma parseFields_refuses (ls : list Buffer) (h : Buffer) :
  In h ls -> validateHeader h = false ->
  parseFields ls = Throw (HTTPError 400 "bad field").
Proof.
  intros Hin Hbad. induction ls as [|x ls IH]; [destruct Hin|].
  cbn [parseFields]. destruct (validateHeader x) eqn:E.
  - cbn [negb]. destruct Hin as [-> | Hin]; [congruence|].
    now rewrite IH.
  - reflexivity.
Qed.

(** [parseRequestLine] either returns or throws a 400. *)
Lemma parseRequestLine_throws_400 (line : Buffer) :
  (exists r, parseRequestLine line = Ok r)
  \/ (exists msg, parseRequestLine line = Throw (HTTPError 400 msg)).
Proof.
  unfold parseRequestLine.
  destruct (split (trim (toString line)) (lit " ")) as [|m [|u [|v [|x l]]]];
    try (right; eexists; reflexivity).
  destruct (negb (startsWith v (lit "HTTP/")));
    [right | left]; eexists; reflexivity.
Qed.

(** The number of tokens is one more than the number of spaces. *)
Lemma split_go_space_length (s : jsstring) : forall cur,
  List.length (split_go (lit " ") s 0 cur) = S (count_occ N.eq_dec s 32%N).
Proof.
  induction s as [|c s IH]; intros cur; [reflexivity|].
  cbn [split_go]. change (lit " ") with [32%N]. cbn [prefixb].
  change (List.length [32%N] - 1)%nat with 0%nat.
  destruct (N.eqb_spec 32 c) as [<- | Hne].
  - cbn [andb]. simpl List.length. change (lit " ") with [32%N] in IH.
    rewrite IH. rewrite count_occ_cons_eq by reflexivity. reflexivity.
  - cbn [andb]. change (lit " ") with [32%N] in IH. rewrite IH.
    rewrite count_occ_cons_neq by congruence. reflexivity.
Qed.

Lemma tokens_length (line : jsstring) :
  List.length (tokens line) = S (count_occ N.eq_dec (trim line) 32%N).
Proof. apply split_go_space_length. Qed.

(** C7.  [parseHTTPReq] throws a 400 protocol error on every header block
    whose request line does not have exactly three space-separated tokens,
    or whose third token does not begin with [HTTP/], or one of whose header
    lines has no colon, has its colon first or last, or has a character that
    is not a token character before the colon. *)
Theorem parseHTTPReq_rejects (d : Buffer) :
  List.length (tokens (request_line d)) <> 3%nat
  \/ ~ has_prefix (lit "HTTP/") (nth 2 (tokens (request_line d)) [])
  \/ (exists line, In line (header_lines d) /\ bad_header_line line) ->
  exists msg, parseHTTPReq d = Throw (HTTPError 400 msg).
Proof.
  unfold parseHTTPReq, request_line, header_lines, tokens.
  intros [Hlen | [Hver | (line & Hin & Hbad)]].
  - unfold parseRequestLine.
    destruct (split (trim (toString (hd [] (splitLines d)))) (lit " "))
      as [|m [|u [|v [|x l]]]]; try (eexists; reflexivity).
    now contradiction Hlen.
  - unfold parseRequestLine.
    destruct (split (trim (toString (hd [] (splitLines d)))) (lit " "))
      as [|m [|u [|v [|x l]]]]; try (eexists; reflexivity).
    cbn [nth] in Hver.
    destruct (startsWith v (lit "HTTP/")) eqn:E; [|eexists; reflexivity].
    exfalso. apply Hver. unfold startsWith in E.
    now apply (prefixb_iff N.eqb N_eqb_eq) in E.
  - destruct (parseRequestLine_throws_400 (hd [] (splitLines d)))
      as [[[[m u] v] ->] | [msg ->]]; [|now exists msg].
    apply in_map_iff in Hin as (h & <- & Hin).
    cbn [rbind].
    rewrite (parseFields_refuses _ h Hin (validateHeader_refuses h Hbad)).
    eexists; reflexivity.
Qed.

Lemma parseHTTPReq_rejects_witness :
  exists msg,
    parseHTTPReq (block ["GET / HTTP/1.1"%string; "Host example"%string])
    = Throw (HTTPError 400 msg).
Proof.
  apply (@parseHTTPReq_rejects (block ["GET / HTTP/1.1"%string; "Host example"%string])).
  right. right. exists (lit "Host example").
  split; [vm_compute; tauto|].
  apply bad_no_colon. vm_compute. intuition discriminate.
Defined.

(** The three refusals, run; and a block cut before its blank line, which
    is the only kind [parseHTTPReq] accepts. *)
Example parseHTTPReq_refusals :
  parseHTTPReq (block ["GET /index.html"%string]) = Throw (HTTPError 400 "bad request line")
  /\ parseHTTPReq (block ["GET / FTP/1.1"%string]) = Throw (HTTPError 400 "bad version")
  /\ parseHTTPReq (block ["GET / HTTP/1.1"%string; "Host example"%string])
     = Throw (HTTPError 400 "bad field")
  /\ parseHTTPReq (block ["GET / HTTP/1.1"%string; ": example"%string])
     = Throw (HTTPError 400 "bad field")
  /\ parseHTTPReq (block ["GET / HTTP/1.1"%string; "Host:"%string])
     = Throw (HTTPError 400 "bad field")
  /\ parseHTTPReq (block ["GET / HTTP/1.1"%string; "Ho st: example"%string])
     = Throw (HTTPError 400 "bad field")
  /\ parseHTTPReq (blit ("GET / HTTP/1.1" ++ CR_LF ++ "Host: example" ++ CR_LF))
     = Ok get_root.
Proof. repeat split; vm_compute; reflexivity. Qed.

(** ** Decimal numerals *)

Lemma trimStart_spaces (ws s : jsstring) :
  all_spaces ws -> trimStart (ws ++ s) = trimStart s.
Proof.
  induction 1 as [|c ws Hc _ IH]; [reflexivity|].
  cbn [app trimStart]. now rewrite Hc.
Qed.

Lemma digit_not_space (c : N) : is_digit c = true -> is_space c = false.
Proof.
  unfold is_digit, is_space. intros H.
  apply andb_true_iff in H as [H1 H2]. apply N.leb_le in H1. apply N.leb_le in H2.
  repeat match goal with
         | |- context [(?a <=? ?b)%N] => destruct (N.leb_spec a b)
         | |- context [(?a =? ?b)%N] => destruct (N.eqb_spec a b)
         end; try reflexivity; lia.
Qed.

Lemma digits_of_app (ds rest : jsstring) :
  all_digits ds -> ~ starts_with_digit rest -> digits_of (ds ++ rest) = ds.
Proof.
  intros Hds Hrest. induction Hds as [|c ds Hc _ IH].
  - destruct rest as [|c rest]; [reflexivity|]. cbn [app digits_of].
    cbn [starts_with_digit] in Hrest. now destruct (is_digit c).
  - cbn [app digits_of]. now rewrite Hc, IH.
Qed.

(** The value [parseInt10] gives to a text that, after white space, reads
    an optional sign, digits, and something that is no digit. *)
Lemma parseInt10_leading (ws ds rest : jsstring) :
  all_spaces ws -> all_digits ds -> ds <> [] -> ~ starts_with_digit rest ->
  parseInt10 (ws ++ ds ++ rest) = Some (digits_value ds)
  /\ parseInt10 (ws ++ 45%N :: ds ++ rest) = Some (- digits_value ds)
  /\ parseInt10 (ws ++ 43%N :: ds ++ rest) = Some (digits_value ds).
Proof.
  intros Hws Hds Hne Hrest. unfold parseInt10.
  destruct ds as [|d ds]; [contradiction|].
  inversion Hds as [|? ? Hd Hds']; subst.
  pose proof (@digits_of_app (d :: ds) rest Hds Hrest) as Hdig.
  assert (Hsp : is_space d = false) by now apply digit_not_space.
  assert (H45 : (d =? 45)%N = false).
  { unfold is_digit in Hd. apply andb_true_iff in Hd as [H1 _].
    apply N.leb_le in H1. apply N.eqb_neq. lia. }
  assert (H43 : (d =? 43)%N = false).
  { unfold is_digit in Hd. apply andb_true_iff in Hd as [H1 _].
    apply N.leb_le in H1. apply N.eqb_neq. lia. }
  split; [|split].
  - rewrite (@trimStart_spaces ws ((d :: ds) ++ rest) Hws).
    cbn [app trimStart]. rewrite Hsp, H45, H43.
    change (d :: ds ++ rest) with ((d :: ds) ++ rest). rewrite Hdig.
    f_equal; lia.
  - rewrite (@trimStart_spaces ws (45%N :: (d :: ds) ++ rest) Hws).
    cbn [trimStart]. change (is_space 45) with false. cbv iota.
    change (45 =? 45)%N with true. cbv iota. rewrite Hdig. f_equal; lia.
  - rewrite (@trimStart_spaces ws (43%N :: (d :: ds) ++ rest) Hws).
    cbn [trimStart]. change (is_space 43) with false. cbv iota.
    change (43 =? 45)%N with false. change (43 =? 43)%N with true. cbv iota.
    rewrite Hdig. f_equal; lia.
Qed.

Lemma numeral_all_digits (s : jsstring) : numeral s -> all_digits s.
Proof.
  intros [_ H]. unfold all_digits. eapply Forall_impl; [|exact H].
  intros c Hc. cbv beta in Hc. unfold is_digit. apply andb_true_iff.
  split; apply N.leb_le; lia.
Qed.

Lemma numeral_value_digits (s : jsstring) : forall acc : Z,
  all_digits s ->
  fold_left (fun a d => a * 10 + (Z.of_N d - 48)) s acc = numeral_value acc s.
Proof.
  induction s as [|c s IH]; intros acc Hs; [reflexivity|].
  inversion Hs as [|? ? Hc Hs']; subst. cbn [fold_left numeral_value].
  rewrite (IH _ Hs'). f_equal.
  unfold is_digit in Hc. apply andb_true_iff in Hc as [H1 _]. apply N.leb_le in H1.
  rewrite N2Z.inj_sub by exact H1. change (Z.of_N 48) with 48. lia.
Qed.

(** [parseDec] reads a numeral as the number it writes. *)
Lemma parseDec_numeral (s : jsstring) :
  numeral s -> parseDec s = Some (numeral_value 0 s).
Proof.
  intros Hn. pose proof (numeral_all_digits Hn) as Hd. destruct Hn as [Hne _].
  destruct (@parseInt10_leading [] s [] (Forall_nil _) Hd Hne (fun H => H))
    as [Hp _].
  cbn [app] in Hp. rewrite app_nil_r in Hp. unfold parseDec. rewrite Hp.
  unfold digits_value. now rewrite (numeral_value_digits 0 Hd).
Qed.

Lemma numeral_value_nonneg (s : jsstring) : forall acc : Z,
  0 <= acc -> 0 <= numeral_value acc s.
Proof.
  induction s as [|c s IH]; intros acc Hacc; cbn [numeral_value]; [exact Hacc|].
  apply IH. pose proof (N2Z.is_nonneg (c - 48)). lia.
Qed.

(** ** The body-reader factory *)

Lemma str_eqb_iff (a b : jsstring) : str_eqb a b = true <-> a = b.
Proof.
  unfold str_eqb. destruct (list_eq_dec N.eq_dec a b); split; congruence.
Qed.

Lemma str_eqb_neq (a b : jsstring) : a <> b -> str_eqb a b = false.
Proof.
  intros H. apply not_true_iff_false. now rewrite str_eqb_iff.
Qed.

Lemma buf_eqb_iff (a b : Buffer) : buf_eqb a b = true <-> a = b.
Proof.
  unfold buf_eqb. destruct (list_eq_dec Byte.byte_eq_dec a b); split; congruence.
Qed.

Lemma body_allowed_flag (req : HTTPReq) :
  body_allowed req ->
  negb (str_eqb (method req) (lit "GET") || str_eqb (method req) (lit "HEAD")) = true.
Proof.
  intros [Hg Hh]. now rewrite (str_eqb_neq Hg), (str_eqb_neq Hh).
Qed.

Lemma bodyless_method_flag (req : HTTPReq) :
  bodyless_method req ->
  negb (str_eqb (method req) (lit "GET") || str_eqb (method req) (lit "HEAD")) = false.
Proof.
  intros [H | H]; rewrite H.
  - reflexivity.
  - rewrite orb_comm. reflexivity.
Qed.

Lemma chunked_flag (req : HTTPReq) :
  match fieldGet (headers req) (lit "Transfer-Encoding") with
  | Some te => buf_eqb te (Buffer_from (lit "chunked"))
  | None => false
  end = true <-> declares_chunked req.
Proof.
  unfold declares_chunked.
  destruct (fieldGet (headers req) (lit "Transfer-Encoding")) as [te|].
  - rewrite buf_eqb_iff. change (Buffer_from (lit "chunked")) with (blit "chunked").
    split; congruence.
  - split; discriminate.
Qed.

(** C3, as stated, fails: a request that allows a body and is chunked gets a
    reader when it also declares a length. *)
Lemma readerFromReq_chunked_not_always_501 :
  ~ (forall req : HTTPReq,
        body_allowed req -> declares_chunked req ->
        exists msg, readerFromReq req = Throw (HTTPError 501 msg)).
Proof.
  intros H.
  destruct (H req_length_and_chunked) as [msg Hmsg].
  - split; vm_compute; discriminate.
  - vm_compute. reflexivity.
  - vm_compute in Hmsg. discriminate.
Qed.

(** C3, amended.  For a request whose method allows a body and whose
    [Transfer-Encoding] is exactly [chunked]: without a [Content-Length]
    field [readerFromReq] throws the 501 protocol error; with a well-formed
    one, a decimal numeral that writes [n] (at most [2^53]), the declared
    length wins and it returns the length-bounded reader of [n] instead.
    A [Content-Length] that is no numeral is left aside. *)
Theorem readerFromReq_chunked (req : HTTPReq) :
  body_allowed req ->
  declares_chunked req ->
  (no_content_length req ->
   readerFromReq req = Throw (HTTPError 501 "chunked not implemented"))
  /\ (forall n, content_length_decimal req n -> n <= 2 ^ 53 ->
      readerFromReq req = Ok (readerFromConLength n)).
Proof.
  intros Hallowed Hchunked.
  apply body_allowed_flag in Hallowed. apply chunked_flag in Hchunked.
  split.
  - intros Hnone. unfold readerFromReq.
    unfold no_content_length in Hnone. rewrite Hnone. cbn [rbind].
    rewrite Hallowed, Hchunked. reflexivity.
  - intros n (cl & Hcl & Hnum & Hval) _. unfold readerFromReq.
    rewrite Hcl, (parseDec_numeral Hnum), Hval. cbn [rbind].
    rewrite Hallowed, Hchunked. cbn [negb andb].
    assert (Hge : 0 <= n).
    { rewrite <- Hval. now apply numeral_value_nonneg. }
    destruct (n >=? 0) eqn:E; [reflexivity|].
    rewrite Z.geb_leb in E. apply Z.leb_gt in E. lia.
Qed.

Lemma readerFromReq_chunked_witness :
  (no_content_length req_chunked ->
   readerFromReq req_chunked = Throw (HTTPError 501 "chunked not implemented"))
  /\ (forall n, content_length_decimal req_chunked n -> n <= 2 ^ 53 ->
      readerFromReq req_chunked = Ok (readerFromConLength n)).
Proof.
  apply (@readerFromReq_chunked req_chunked).
  - split; vm_compute; discriminate.
  - vm_compute. reflexivity.
Defined.

(** Both halves at work: a chunked [POST] without a length, and one that
    declares five bytes. *)
Example readerFromReq_chunked_examples :
  readerFromReq req_chunked = Throw (HTTPError 501 "chunked not implemented")
  /\ readerFromReq req_length_and_chunked = Ok (readerFromConLength 5).
Proof. split; vm_compute; reflexivity. Qed.

(** C4: what the factory does with a [Content-Length] that is no decimal
    number.  [parseInt] reads the leading digits of [12abc] and the sign of
    [-5]; only a value without a leading number is refused with 400. *)
Theorem readerFromReq_lenient_content_length :
  readerFromReq (mkHTTPReq (lit "POST") (blit "/") (lit "1.1")
                           [blit "Content-Length: 12abc"])
  = Ok (readerFromConLength 12)
  /\ readerFromReq (mkHTTPReq (lit "POST") (blit "/") (lit "1.1")
                              [blit "Content-Length: -5"])
     = Throw (HTTPError 501 "unknown body type")
  /\ readerFromReq (mkHTTPReq (lit "GET") (blit "/") (lit "1.1")
                              [blit "Content-Length: -5"])
     = Ok (readerFromConLength 0)
  /\ readerFromReq (mkHTTPReq (lit "POST") (blit "/") (lit "1.1")
                              [blit "Content-Length: abc"])
     = Throw (HTTPError 400 "bad Content-Length").
Proof. repeat split; vm_compute; reflexivity. Qed.

(** C8, as stated, fails: a [GET] that declares neither a positive length
    nor chunked encoding gets no reader when its [Content-Length] does not
    parse. *)
Lemma readerFromReq_bodyless_otherwise_fails :
  ~ (forall req : HTTPReq,
        bodyless_method req ->
        (declares_positive_length req \/ declares_chunked req ->
         exists msg, readerFromReq req = Throw (HTTPError 400 msg))
        /\ (~ (declares_positive_length req \/ declares_chunked req) ->
            exists r, readerFromReq req = Ok r
                      /\ body_length r = 0 /\ pulls_empty_at_once r)).
Proof.
  intros H.
  destruct (H req_get_bad_length) as [_ Hother].
  - left. reflexivity.
  - destruct Hother as (r & Hr & _).
    + intros [(n & (cl & Hcl & Hp) & _) | Hch].
      * vm_compute in Hcl. injection Hcl as <-. vm_compute in Hp. discriminate.
      * vm_compute in Hch. discriminate.
    + vm_compute in Hr. discriminate.
Qed.

(** C8, amended.  For a request whose method is [GET] or [HEAD],
    [readerFromReq] throws a 400 protocol error if the request declares a
    positive [Content-Length] (a decimal numeral) or chunked encoding, and
    also if its [Content-Length] holds no number at all; with no
    [Content-Length], or with the numeral for 0, and without chunked encoding
    it returns the reader of length 0, whose first pull gives an empty chunk
    without a socket read.  A [Content-Length] that is no numeral but has a
    number in front is left aside. *)
Theorem readerFromReq_bodyless (req : HTTPReq) :
  bodyless_method req ->
  ((exists n, content_length_decimal req n /\ 0 < n) \/ declares_chunked req
   \/ content_length_unparsable req ->
   exists msg, readerFromReq req = Throw (HTTPError 400 msg))
  /\ (no_content_length req \/ content_length_decimal req 0 ->
      ~ declares_chunked req ->
      exists r, readerFromReq req = Ok r
                /\ body_length r = 0 /\ pulls_empty_at_once r).
Proof.
  intros Hm. apply bodyless_method_flag in Hm.
  pose proof (chunked_flag req) as Hch.
  assert (Hzero : exists r, Ok (readerFromConLength 0) = Ok r
                            /\ body_length r = 0 /\ pulls_empty_at_once r).
  { exists (readerFromConLength 0). split; [reflexivity|]. split; [reflexivity|].
    intros w. eexists. reflexivity. }
  unfold content_length_decimal, content_length_unparsable, no_content_length.
  unfold readerFromReq.
  destruct (fieldGet (headers req) (lit "Content-Length")) as [cl|].
  - destruct (parseDec (toString_latin1 cl)) as [n|] eqn:Ep.
    + cbn [rbind]. rewrite Hm. cbn [negb andb].
      destruct (match fieldGet (headers req) (lit "Transfer-Encoding") with
                | Some te => buf_eqb te (Buffer_from (lit "chunked"))
                | None => false
                end) eqn:Ech.
      * rewrite orb_true_r. split; [intros _; eexists; reflexivity|].
        intros _ Hnot. exfalso. apply Hnot. now apply Hch.
      * rewrite orb_false_r. destruct (n >? 0) eqn:En.
        -- split; [intros _; eexists; reflexivity|].
           intros [Hnone | (cl' & Hcl & Hnum & Hval)] _; [discriminate|].
           injection Hcl as <-. rewrite (parseDec_numeral Hnum), Hval in Ep.
           injection Ep as <-. discriminate.
        -- split; [|intros _ _; exact Hzero].
           intros [(n' & (cl' & Hcl & Hnum & Hval) & Hpos) | [Hc | (cl' & Hcl & Hp)]].
           ++ injection Hcl as <-. rewrite (parseDec_numeral Hnum), Hval in Ep.
              injection Ep as <-. lia.
           ++ apply Hch in Hc. discriminate.
           ++ injection Hcl as <-. congruence.
    + cbn [rbind]. split; [intros _; eexists; reflexivity|].
      intros [Hnone | (cl' & Hcl & Hnum & Hval)] _; [discriminate|].
      injection Hcl as <-. rewrite (parseDec_numeral Hnum) in Ep. discriminate.
  - cbn [rbind]. rewrite Hm. cbn [negb andb].
    assert (E0 : (-1 >? 0) = false) by reflexivity. rewrite E0. cbn [orb].
    destruct (match fieldGet (headers req) (lit "Transfer-Encoding") with
              | Some te => buf_eqb te (Buffer_from (lit "chunked"))
              | None => false
              end) eqn:Ech.
    + split; [intros _; eexists; reflexivity|].
      intros _ Hnot. exfalso. apply Hnot. now apply Hch.
    + split; [|intros _ _; exact Hzero].
      intros [(n' & (cl' & Hcl & _) & _) | [Hc | (cl' & Hcl & _)]];
        try discriminate.
      apply Hch in Hc. discriminate.
Qed.

Lemma readerFromReq_bodyless_witness :
  ((exists n, content_length_decimal req_get_length n /\ 0 < n)
   \/ declares_chunked req_get_length
   \/ content_length_unparsable req_get_length ->
   exists msg, readerFromReq req_get_length = Throw (HTTPError 400 msg))
  /\ (no_content_length req_get_length \/ content_length_decimal req_get_length 0 ->
      ~ declares_chunked req_get_length ->
      exists r, readerFromReq req_get_length = Ok r
                /\ body_length r = 0 /\ pulls_empty_at_once r).
Proof.
  apply (@readerFromReq_bodyless req_get_length).
  left. reflexivity.
Defined.

(** The three cases of the amended claim, run: [GET] with five bytes
    declared, [GET] with a [Content-Length] that holds no number, and the
    plain [GET]. *)
Example readerFromReq_bodyless_examples :
  readerFromReq req_get_length = Throw (HTTPError 400 "HTTP body not allowed")
  /\ readerFromReq req_get_bad_length = Throw (HTTPError 400 "bad Content-Length")
  /\ readerFromReq get_root = Ok (readerFromConLength 0).
Proof. repeat split; vm_compute; reflexivity. Qed.

(** ** The length-bounded reader *)

Lemma firstn_firstn_le {A : Type} (l : list A) (n m : nat) :
  (n <= m)%nat -> firstn n (firstn m l) = firstn n l.
Proof. intros H. rewrite firstn_firstn. f_equal. lia. Qed.

(** A pull with bytes remaining and bytes buffered: the chunk is the front
    of the buffer, nothing is read. *)
Lemma read_from_buffer (w : World) (L r : Z) :
  wf (dynbuf w) -> 0 < r -> length (dynbuf w) <> 0 ->
  let c := content (dynbuf w) in
  let m := Z.min (len c) r in
  exists buf',
    read (mkBodyReader L (ConLengthRead r)) w
    = (Ok (firstn (Z.to_nat m) c, mkBodyReader L (ConLengthRead (r - m))),
       mkWorld (incoming w) (trace w) buf')
    /\ wf buf' /\ content buf' = skipn (Z.to_nat m) c.
Proof.
  intros Hwf Hr Hlen c m. subst c m.
  rewrite (len_content Hwf).
  destruct Hwf as [H0 Hcap]. unfold capacity in Hcap.
  set (m := Z.min (length (dynbuf w)) r).
  assert (Hm : 0 <= m <= length (dynbuf w)) by (unfold m; lia).
  destruct (@bufPop_ok (dynbuf w) m (conj H0 Hcap) Hm)
    as (buf' & Hpop & Hwf' & _ & Hc' & _).
  exists buf'. split; [|split; assumption].
  unfold read; cbn [read_closure body_length].
  destruct (r =? 0) eqn:Er; [apply Z.eqb_eq in Er; lia|].
  unfold bind, getBuf, lift, setBuf, ret.
  destruct (length (dynbuf w) =? 0) eqn:El; [apply Z.eqb_eq in El; lia|].
  cbn [dynbuf incoming trace]. fold m. rewrite Hpop.
  rewrite subarray_prefix by lia.
  rewrite content_wf by (split; assumption).
  rewrite firstn_firstn_le by lia. reflexivity.
Qed.

(** A pull with bytes remaining and an empty buffer reads the socket once;
    the chunk is the front of what arrived, the rest stays in the buffer. *)
Lemma read_refill (w : World) (L r : Z) (d : Buffer) (rest : list Buffer) :
  wf (dynbuf w) -> 0 < r -> length (dynbuf w) = 0 ->
  incoming w = d :: rest -> d <> [] ->
  let m := Z.min (len d) r in
  exists buf',
    read (mkBodyReader L (ConLengthRead r)) w
    = (Ok (firstn (Z.to_nat m) d, mkBodyReader L (ConLengthRead (r - m))),
       mkWorld rest (trace w ++ [EvRead d]) buf')
    /\ wf buf' /\ content buf' = skipn (Z.to_nat m) d.
Proof.
  intros Hwf Hr Hlen Hin Hd m. subst m.
  destruct (bufPush_ok d Hwf) as (buf1 & Hpush & Hwf1 & Hlen1 & Hc1 & _).
  assert (Hc0 : content (dynbuf w) = []).
  { apply len_nil_inv. now rewrite (len_content Hwf). }
  rewrite Hc0 in Hc1. cbn [app] in Hc1.
  rewrite Hlen, Z.add_0_l in Hlen1.
  assert (Hdpos : 0 < len d).
  { destruct d; [contradiction|]. unfold len; simpl List.length; lia. }
  set (m := Z.min (len d) r).
  assert (Hm : 0 <= m <= length buf1) by (unfold m; lia).
  destruct (@bufPop_ok buf1 m Hwf1 Hm) as (buf' & Hpop & Hwf' & _ & Hc' & _).
  exists buf'. split; [|split; [assumption | now rewrite Hc', Hc1]].
  unfold read; cbn [read_closure body_length].
  destruct (r =? 0) eqn:Er; [apply Z.eqb_eq in Er; lia|].
  unfold bind, getBuf, lift, setBuf, ret, soRead.
  rewrite Hlen. cbn [Z.eqb]. rewrite Hin. cbn [dynbuf incoming trace].
  rewrite Hpush.
  destruct (len d =? 0) eqn:Ed; [apply Z.eqb_eq in Ed; lia|].
  cbn [dynbuf incoming trace]. rewrite Hlen1. fold m. rewrite Hpop.
  destruct Hwf1 as [? ?]. unfold capacity in *.
  rewrite subarray_prefix by lia.
  rewrite <- Hc1 at 2. rewrite content_wf by (split; assumption).
  rewrite firstn_firstn_le by lia. reflexivity.
Qed.

(** A pull with bytes remaining, an empty buffer and a socket at its end
    fails with the plain error of the source, after its one read. *)
Lemma read_eof (w : World) (L r : Z) :
  wf (dynbuf w) -> 0 < r -> length (dynbuf w) = 0 ->
  hd [] (incoming w) = [] ->
  exists buf',
    read (mkBodyReader L (ConLengthRead r)) w
    = (Throw (Error "Unexpected EOF in body"),
       mkWorld (tl (incoming w)) (trace w ++ [EvRead []]) buf')
    /\ wf buf' /\ content buf' = [].
Proof.
  intros Hwf Hr Hlen Hhd.
  destruct (bufPush_ok [] Hwf) as (buf1 & Hpush & Hwf1 & Hlen1 & Hc1 & _).
  assert (Hc0 : content (dynbuf w) = []).
  { apply len_nil_inv. now rewrite (len_content Hwf). }
  rewrite Hc0 in Hc1. cbn [app] in Hc1.
  exists buf1. split; [|split; assumption].
  unfold read; cbn [read_closure body_length].
  destruct (r =? 0) eqn:Er; [apply Z.eqb_eq in Er; lia|].
  unfold bind, getBuf, lift, setBuf, ret, soRead, throw.
  rewrite Hlen. cbn [Z.eqb].
  destruct (incoming w) as [|d rest] eqn:Hin; cbn [hd] in Hhd; subst;
    cbn [dynbuf incoming trace tl]; rewrite Hpush; reflexivity.
Qed.

(** C10.  One pull of a length-bounded reader with [r > 0] bytes remaining
    ([r] at most [2^53], where the subtraction of the source is exact), on a
    buffer that satisfies its invariant: the chunk is the first
    [min(buffered length, r)] bytes of the buffer, [remain] drops by as much,
    and the buffer keeps the bytes after them, in order; the socket is read
    once when the buffer was empty and not at all otherwise.  When that read
    finds the socket at its end the pull fails and the buffer stays empty. *)
Theorem read_consumes_min (w : World) (L r : Z) :
  wf (dynbuf w) -> 0 < r -> r <= 2 ^ 53 ->
  let b := buffered_for_pull w in
  let m := Z.min (len b) r in
  (b <> [] ->
   exists w',
     read (mkBodyReader L (ConLengthRead r)) w
     = (Ok (firstn (Z.to_nat m) b, mkBodyReader L (ConLengthRead (r - m))), w')
     /\ 0 < m <= r
     /\ wf (dynbuf w')
     /\ content (dynbuf w') = skipn (Z.to_nat m) b
     /\ (length (dynbuf w) <> 0 -> incoming w' = incoming w /\ trace w' = trace w)
     /\ (length (dynbuf w) = 0 ->
         incoming w' = tl (incoming w) /\ trace w' = trace w ++ [EvRead b]))
  /\ (b = [] ->
      exists w',
        read (mkBodyReader L (ConLengthRead r)) w
        = (Throw (Error "Unexpected EOF in body"), w')
        /\ content (dynbuf w') = []).
Proof.
  intros Hwf Hr _ b m. subst b m. unfold buffered_for_pull.
  destruct (length (dynbuf w) =? 0) eqn:El.
  - apply Z.eqb_eq in El. split.
    + intros Hb. destruct (incoming w) as [|d rest] eqn:Hin; [now contradiction Hb|].
      cbn [hd] in *.
      destruct (@read_refill w L r d rest Hwf Hr El Hin Hb)
        as (buf' & Hread & Hwf' & Hc').
      eexists. split; [exact Hread|].
      assert (0 < len d).
      { destruct d; [contradiction|]. unfold len; simpl List.length; lia. }
      cbn [dynbuf incoming trace tl].
      repeat split; try assumption; try lia.
      * apply Hwf'.
      * apply Hwf'.
    + intros Hb. destruct (@read_eof w L r Hwf Hr El Hb) as (buf' & Hread & _ & Hc').
      eexists. split; [exact Hread | exact Hc'].
  - apply Z.eqb_neq in El. split.
    + intros Hb.
      destruct (@read_from_buffer w L r Hwf Hr El) as (buf' & Hread & Hwf' & Hc').
      eexists. split; [exact Hread|].
      pose proof (len_content Hwf) as Hlc. destruct Hwf as [H0 ?].
      cbn [dynbuf incoming trace].
      repeat split; try assumption; try lia.
      * apply Hwf'.
      * apply Hwf'.
    + intros Hb. exfalso. apply El. rewrite <- (len_content Hwf), Hb. reflexivity.
Qed.

Lemma read_consumes_min_witness :
  let w := mkWorld [blit "next"] [] (mkDynBuf (blit "bodyGET / HTTP/1.1") 18) in
  let b := buffered_for_pull w in
  let m := Z.min (len b) 4 in
  (b <> [] ->
   exists w',
     read (mkBodyReader 10 (ConLengthRead 4)) w
     = (Ok (firstn (Z.to_nat m) b, mkBodyReader 10 (ConLengthRead (4 - m))), w')
     /\ 0 < m <= 4
     /\ wf (dynbuf w')
     /\ content (dynbuf w') = skipn (Z.to_nat m) b
     /\ (length (dynbuf w) <> 0 -> incoming w' = incoming w /\ trace w' = trace w)
     /\ (length (dynbuf w) = 0 ->
         incoming w' = tl (incoming w) /\ trace w' = trace w ++ [EvRead b]))
  /\ (b = [] ->
      exists w',
        read (mkBodyReader 10 (ConLengthRead 4)) w
        = (Throw (Error "Unexpected EOF in body"), w')
        /\ content (dynbuf w') = []).
Proof.
  apply (@read_consumes_min
           (mkWorld [blit "next"] [] (mkDynBuf (blit "bodyGET / HTTP/1.1") 18)) 10 4).
  - split; vm_compute; discriminate.
  - lia.
  - vm_compute. discriminate.
Defined.

Lemma firstn_add_split {A : Type} (l : list A) (a b : nat) :
  firstn (a + b) l = firstn a l ++ firstn b (skipn a l).
Proof.
  revert l; induction a as [|a IH]; intros l; [reflexivity|].
  destruct l as [|x l]; simpl.
  - now rewrite firstn_nil.
  - now rewrite IH.
Qed.

Lemma firstn_app_within {A : Type} (l1 l2 : list A) (n : nat) :
  (n <= List.length l1)%nat -> firstn n (l1 ++ l2) = firstn n l1.
Proof.
  intros H. rewrite firstn_app. replace (n - List.length l1)%nat with 0%nat by lia.
  simpl. now rewrite app_nil_r.
Qed.

Lemma skipn_app_within {A : Type} (l1 l2 : list A) (n : nat) :
  (n <= List.length l1)%nat -> skipn n (l1 ++ l2) = skipn n l1 ++ l2.
Proof.
  intros H. rewrite skipn_app. replace (n - List.length l1)%nat with 0%nat by lia.
  reflexivity.
Qed.

(** One pull, seen on the stream: the chunk is a non-empty front of it. *)
Lemma read_step_stream (w : World) (L r : Z) :
  wf (dynbuf w) -> Forall nonempty (incoming w) ->
  0 < r -> r <= len (stream w) ->
  exists (m : Z) (w1 : World),
    read (mkBodyReader L (ConLengthRead r)) w
    = (Ok (firstn (Z.to_nat m) (stream w), mkBodyReader L (ConLengthRead (r - m))), w1)
    /\ 0 < m <= r
    /\ stream w1 = skipn (Z.to_nat m) (stream w)
    /\ wf (dynbuf w1) /\ Forall nonempty (incoming w1).
Proof.
  intros Hwf Hne Hr Hlen.
  pose proof (len_content Hwf) as Hlc.
  unfold stream in *.
  destruct (Z.eq_dec (length (dynbuf w)) 0) as [El | El].
  - assert (Hc0 : content (dynbuf w) = []) by (apply len_nil_inv; lia).
    rewrite Hc0 in *. cbn [app] in *.
    destruct (incoming w) as [|d rest] eqn:Hin.
    { unfold len in Hlen; simpl in Hlen; lia. }
    inversion Hne as [|? ? Hd Hrest]; subst.
    destruct (@read_refill w L r d rest Hwf Hr El Hin Hd)
      as (buf' & Hread & Hwf' & Hc').
    assert (0 < len d).
    { destruct d; [now contradiction Hd|]. unfold len; simpl List.length; lia. }
    set (m := Z.min (len d) r) in *.
    assert (Hmd : (Z.to_nat m <= List.length d)%nat) by (unfold len in *; lia).
    exists m. eexists. split; [|split; [lia|]].
    + cbn [List.concat]. rewrite firstn_app_within by exact Hmd. exact Hread.
    + cbn [dynbuf incoming List.concat].
      rewrite skipn_app_within by exact Hmd. rewrite Hc'.
      split; [reflexivity|]. split; assumption.
  - assert (0 < len (content (dynbuf w))) by (destruct Hwf; lia).
    destruct (@read_from_buffer w L r Hwf Hr El) as (buf' & Hread & Hwf' & Hc').
    set (m := Z.min (len (content (dynbuf w))) r) in *.
    assert (Hmd : (Z.to_nat m <= List.length (content (dynbuf w)))%nat)
      by (unfold len in *; lia).
    exists m. eexists. split; [|split; [lia|]].
    + rewrite firstn_app_within by exact Hmd. exact Hread.
    + cbn [dynbuf incoming].
      rewrite skipn_app_within by exact Hmd. rewrite Hc'.
      split; [reflexivity|]. split; assumption.
Qed.

(** Pulling drains exactly [r] bytes of the stream, in non-empty chunks. *)
Lemma pulls_drain (n : nat) : forall (w : World) (L r : Z),
  (Z.to_nat r <= n)%nat -> 0 <= r ->
  wf (dynbuf w) -> Forall nonempty (incoming w) -> r <= len (stream w) ->
  exists (k : nat) (chunks : list Buffer) (w' : World),
    pulls k (mkBodyReader L (ConLengthRead r)) w
    = (Ok (chunks, mkBodyReader L (ConLengthRead 0)), w')
    /\ Forall nonempty chunks
    /\ List.concat chunks = firstn (Z.to_nat r) (stream w)
    /\ stream w' = skipn (Z.to_nat r) (stream w)
    /\ wf (dynbuf w').
Proof.
  induction n as [|n IH]; intros w L r Hn Hr Hwf Hne Hlen.
  - assert (r = 0) by lia. subst r.
    exists 0%nat, [], w.
    split; [reflexivity|]. split; [constructor|].
    split; [reflexivity|]. split; [reflexivity | exact Hwf].
  - destruct (Z.eq_dec r 0) as [-> | Hnz].
    + exists 0%nat, [], w.
      split; [reflexivity|]. split; [constructor|].
      split; [reflexivity|]. split; [reflexivity | exact Hwf].
    + destruct (@read_step_stream w L r Hwf Hne ltac:(lia) Hlen)
        as (m & w1 & Hread & Hm & Hs1 & Hwf1 & Hne1).
      assert (Hlen1 : r - m <= len (stream w1)).
      { rewrite Hs1, len_skipn by lia. lia. }
      destruct (IH w1 L (r - m) ltac:(lia) ltac:(lia) Hwf1 Hne1 Hlen1)
        as (k & chunks & w' & Hpulls & Hall & Hcat & Hs' & Hwf').
      exists (S k), (firstn (Z.to_nat m) (stream w) :: chunks), w'.
      split; [|split; [|split; [|split]]].
      * cbn [pulls]. unfold bind at 1. rewrite Hread.
        unfold bind at 1. rewrite Hpulls. reflexivity.
      * constructor; [|exact Hall].
        unfold nonempty. intros E.
        assert (Hl : len (firstn (Z.to_nat m) (stream w)) = m)
          by (apply len_firstn; lia).
        rewrite E in Hl. unfold len in Hl; simpl in Hl. lia.
      * cbn [List.concat]. rewrite Hcat, Hs1.
        replace (Z.to_nat r) with (Z.to_nat m + Z.to_nat (r - m))%nat by lia.
        now rewrite firstn_add_split.
      * rewrite Hs', Hs1, skipn_skipn. f_equal. lia.
      * exact Hwf'.
Qed.

(** A drained reader gives empty chunks for ever, and touches nothing. *)
Lemma pulls_done (j : nat) (L : Z) (w : World) :
  pulls j (mkBodyReader L (ConLengthRead 0)) w
  = (Ok (repeat [] j, mkBodyReader L (ConLengthRead 0)), w).
Proof.
  induction j as [|j IH]; [reflexivity|].
  cbn [pulls]. unfold bind at 1. cbn [read read_closure Z.eqb ret].
  change (Buffer_from (lit "")) with (@nil byte).
  unfold bind at 1. rewrite IH. reflexivity.
Qed.

(** A pull never changes the [length] field. *)
Lemma read_keeps_length (r r' : BodyReader) (c : Buffer) (w w' : World) :
  read r w = (Ok (c, r'), w') -> body_length r' = body_length r.
Proof.
  unfold read. destruct (read_closure r) as [remain | payload done].
  - destruct (remain =? 0).
    + unfold ret. intros H. injection H as _ <- _. reflexivity.
    + unfold bind, getBuf, lift, setBuf, ret, soRead, throw.
      repeat match goal with
             | |- context [match ?x with _ => _ end] => destruct x
             end;
        intros H; try discriminate; injection H as _ <- _; reflexivity.
  - unfold ret. intros H. injection H as _ <- _. reflexivity.
Qed.

Lemma pulls_keep_length (k : nat) : forall (r r' : BodyReader) cs (w w' : World),
  pulls k r w = (Ok (cs, r'), w') -> body_length r' = body_length r.
Proof.
  induction k as [|k IH]; intros r r' cs w w'.
  - cbn [pulls]. unfold ret. intros H. injection H as _ <- _. reflexivity.
  - cbn [pulls]. unfold bind at 1.
    destruct (read r w) as [[[c r1] | e |] w1] eqn:Hread; try discriminate.
    unfold bind at 1.
    destruct (pulls k r1 w1) as [[[cs1 r2] | e |] w2] eqn:Hp; try discriminate.
    unfold ret. intros H. injection H as _ <- _.
    rewrite (IH _ _ _ _ _ Hp). exact (read_keeps_length _ _ Hread).
Qed.

(** C6.  For a request whose method allows a body and whose
    [Content-Length] parses to [N >= 0], [N] at most [2^53] (where the numbers
    of the source are exact), [readerFromReq] returns a reader of [length]
    [N].  Whatever the buffer holds and however the socket cuts what
    follows into (non-empty) chunks, as long as [N] bytes are there: some
    number of pulls gives non-empty chunks whose concatenation is the first
    [N] bytes of the stream, the bytes after them stay for the next message,
    every further pull gives an empty chunk, and [length] is [N] after any
    number of pulls. *)
Theorem content_length_stream (req : HTTPReq) (N : Z) (w : World) :
  body_allowed req -> content_length_is req N -> 0 <= N -> N <= 2 ^ 53 ->
  wf (dynbuf w) -> Forall nonempty (incoming w) -> N <= len (stream w) ->
  exists r : BodyReader,
    readerFromReq req = Ok r
    /\ body_length r = N
    /\ (exists (k : nat) (chunks : list Buffer) (r' : BodyReader) (w' : World),
          pulls k r w = (Ok (chunks, r'), w')
          /\ Forall nonempty chunks
          /\ List.concat chunks = firstn (Z.to_nat N) (stream w)
          /\ stream w' = skipn (Z.to_nat N) (stream w)
          /\ forall (j : nat) (w'' : World),
               pulls j r' w'' = (Ok (repeat [] j, r'), w''))
    /\ (forall (j : nat) (cs : list Buffer) (rj : BodyReader) (wj : World),
          pulls j r w = (Ok (cs, rj), wj) -> body_length rj = N).
Proof.
  intros Hallowed (cl & Hcl & Hparse) HN _ Hwf Hne Hlen.
  exists (readerFromConLength N). split; [|split; [reflexivity|split]].
  - apply body_allowed_flag in Hallowed.
    unfold readerFromReq. rewrite Hcl, Hparse. cbn [rbind].
    rewrite Hallowed. cbn [negb andb].
    destruct (N >=? 0) eqn:E; [reflexivity|].
    rewrite Z.geb_leb in E. apply Z.leb_gt in E. lia.
  - destruct (@pulls_drain (Z.to_nat N) w N N (Nat.le_refl _) HN Hwf Hne Hlen)
      as (k & chunks & w' & Hp & Hall & Hcat & Hs & _).
    exists k, chunks, (mkBodyReader N (ConLengthRead 0)), w'.
    repeat split; try assumption. intros j w''. apply pulls_done.
  - intros j cs rj wj Hp. exact (pulls_keep_length _ _ _ Hp).
Qed.

Lemma content_length_stream_witness :
  exists r : BodyReader,
    readerFromReq req_post_11 = Ok r
    /\ body_length r = 11
    /\ (exists (k : nat) (chunks : list Buffer) (r' : BodyReader) (w' : World),
          pulls k r world_split_body = (Ok (chunks, r'), w')
          /\ Forall nonempty chunks
          /\ List.concat chunks = firstn (Z.to_nat 11) (stream world_split_body)
          /\ stream w' = skipn (Z.to_nat 11) (stream world_split_body)
          /\ forall (j : nat) (w'' : World),
               pulls j r' w'' = (Ok (repeat [] j, r'), w''))
    /\ (forall (j : nat) (cs : list Buffer) (rj : BodyReader) (wj : World),
          pulls j r world_split_body = (Ok (cs, rj), wj) -> body_length rj = 11).
Proof.
  apply (@content_length_stream req_post_11 11 world_split_body).
  - split; vm_compute; discriminate.
  - exists (blit "11"). split; vm_compute; reflexivity.
  - lia.
  - vm_compute. discriminate.
  - split; vm_compute; discriminate.
  - repeat constructor; discriminate.
  - vm_compute. discriminate.
Defined.

(** The pulls of that example, run. *)
Example pulls_split_body :
  fst (pulls 4 (readerFromConLength 11) world_split_body)
  = Ok ([blit "hell"; blit "o wo"; blit "rld"; []],
        mkBodyReader 11 (ConLengthRead 0))
  /\ content (dynbuf (snd (pulls 4 (readerFromConLength 11) world_split_body)))
     = blit "GET /".
Proof. split; vm_compute; reflexivity. Qed.

(** ** The in-memory reader *)

Lemma read_memory (L : Z) (payload : Buffer) (done : bool) (w : World) :
  read (mkBodyReader L (MemoryRead payload done)) w
  = (Ok (payload, mkBodyReader L (MemoryRead payload true)), w).
Proof. reflexivity. Qed.

(** Every pull of an in-memory reader gives the whole payload again. *)
Lemma pulls_memory (k : nat) : forall (L : Z) (payload : Buffer) (done : bool) (w : World),
  pulls k (mkBodyReader L (MemoryRead payload done)) w
  = (Ok (repeat payload k,
         mkBodyReader L (MemoryRead payload (match k with O => done | S _ => true end))),
     w).
Proof.
  induction k as [|k IH]; intros L payload done w; [reflexivity|].
  cbn [pulls]. unfold bind at 1. rewrite read_memory.
  unfold bind at 1. rewrite IH. destruct k; reflexivity.
Qed.

(** The loop of [writeHTTPResp] over an in-memory reader with a non-empty
    payload writes the payload once per iteration and does not end. *)
Lemma writeBody_memory_diverges (payload : Buffer) (fuel : nat) :
  payload <> [] ->
  forall (L : Z) (done : bool) (w : World),
    writeBody fuel (mkBodyReader L (MemoryRead payload done)) w
    = (OutOfFuel,
       mkWorld (incoming w) (trace w ++ repeat (EvWrite payload) fuel) (dynbuf w)).
Proof.
  intros Hne. induction fuel as [|fuel IH]; intros L done w.
  - cbn [writeBody repeat]. unfold diverge. rewrite app_nil_r. now destruct w.
  - cbn [writeBody]. unfold bind at 1. rewrite read_memory.
    destruct (len payload =? 0) eqn:E.
    { apply Z.eqb_eq in E. apply len_nil_inv in E. contradiction. }
    unfold bind at 1. unfold soWrite, log. rewrite IH.
    cbn [incoming trace dynbuf repeat]. now rewrite <- app_assoc.
Qed.

(** C2: the code on the payload of [HandleReq].  The first pull gives the
    payload, and so does the second, and every one after it; a consumer
    that pulls until an empty chunk, as [writeHTTPResp] does, writes the
    payload at every turn and never comes to an end. *)
Theorem readerFromMemory_repeats_payload :
  (forall w : World,
      pulls 2 (readerFromMemory hello_world) w
      = (Ok ([hello_world; hello_world],
             mkBodyReader 13 (MemoryRead hello_world true)), w))
  /\ (forall (k : nat) (w : World),
        fst (pulls k (readerFromMemory hello_world) w)
        = Ok (repeat hello_world k,
              mkBodyReader 13 (MemoryRead hello_world
                                          (match k with O => false | S _ => true end))))
  /\ (forall (fuel : nat) (w : World),
        writeBody fuel (readerFromMemory hello_world) w
        = (OutOfFuel,
           mkWorld (incoming w) (trace w ++ repeat (EvWrite hello_world) fuel)
                   (dynbuf w))).
Proof.
  split; [|split].
  - intros w. apply (pulls_memory 2).
  - intros k w. unfold readerFromMemory. now rewrite pulls_memory.
  - intros fuel w. apply writeBody_memory_diverges. discriminate.
Qed.

(** The claim holds for the empty payload only: its first pull is already
    the empty chunk. *)
Lemma readerFromMemory_empty (k : nat) (w : World) :
  fst (pulls k (readerFromMemory []) w)
  = Ok (repeat [] k,
        mkBodyReader 0 (MemoryRead [] (match k with O => false | S _ => true end))).
Proof. unfold readerFromMemory. now rewrite pulls_memory. Qed.

(** ** The server loop *)

Lemma writes_app (t1 t2 : list Event) : writes (t1 ++ t2) = writes t1 ++ writes t2.
Proof.
  induction t1 as [|e t1 IH]; [reflexivity|].
  destruct e; cbn [app writes]; now rewrite IH.
Qed.

Lemma quiet_ret {A : Type} (a : A) : quiet (ret a).
Proof. intros w. reflexivity. Qed.

Lemma quiet_throw {A : Type} (e : exn) : quiet (@throw A e).
Proof. intros w. reflexivity. Qed.

Lemma quiet_diverge {A : Type} : quiet (@diverge A).
Proof. intros w. reflexivity. Qed.

Lemma quiet_lift {A : Type} (r : result A) : quiet (lift r).
Proof. intros w. reflexivity. Qed.

Lemma quiet_getBuf : quiet getBuf.
Proof. intros w. reflexivity. Qed.

Lemma quiet_setBuf (b : DynBuf) : quiet (setBuf b).
Proof. intros w. reflexivity. Qed.

Lemma quiet_soRead : quiet soRead.
Proof.
  intros w. unfold soRead.
  destruct (incoming w); cbn [snd trace]; rewrite writes_app; cbn [writes];
    now rewrite app_nil_r.
Qed.

Lemma quiet_bind {A B : Type} (m : M A) (k : A -> M B) :
  quiet m -> (forall a, quiet (k a)) -> quiet (bind m k).
Proof.
  intros Hm Hk w. unfold bind. specialize (Hm w).
  destruct (m w) as [[a | e |] w1]; cbn [snd] in *; try exact Hm.
  now rewrite Hk.
Qed.

Create HintDb quiet.
#[local] Hint Resolve quiet_ret quiet_throw quiet_diverge quiet_lift
  quiet_getBuf quiet_setBuf quiet_soRead : quiet.

Lemma quiet_serveMessage (msg : HTTPReq) : quiet (serveMessage msg).
Proof.
  unfold serveMessage. apply quiet_bind; auto with quiet.
Qed.

(** The loop of [serveClient] never writes. *)
Lemma quiet_serveLoop (fuel : nat) : quiet (serveLoop fuel).
Proof.
  induction fuel as [|fuel IH]; cbn [serveLoop]; [apply quiet_diverge|].
  apply quiet_bind; [apply quiet_getBuf | intros buf].
  apply quiet_bind; [apply quiet_lift | intros [msg buf']].
  apply quiet_bind; [apply quiet_setBuf | intros _].
  destruct msg as [msg|].
  - apply quiet_bind; [apply quiet_serveMessage | intros _; exact IH].
  - apply quiet_bind; [apply quiet_soRead | intros d].
    apply quiet_bind; [apply quiet_lift | intros buf''].
    apply quiet_bind; [apply quiet_setBuf | intros _].
    destruct ((len d =? 0) && (length buf'' =? 0)); [apply quiet_ret|].
    destruct (len d =? 0); [apply quiet_throw | exact IH].
Qed.

Lemma quiet_serveClient (fuel : nat) : quiet (serveClient fuel).
Proof.
  unfold serveClient.
  apply quiet_bind; [apply quiet_setBuf | intros _; apply quiet_serveLoop].
Qed.

(** ** No block that ends in the terminator parses

    [split] cuts a text that ends in [\r\n\r\n] into segments of which the
    last two are empty; the loop of [parseHTTPReq] stops before the last
    segment only, so it validates the empty one before it as a header. *)

Lemma utf8_start_ok (b : N) : utf8_state_ok (snd (utf8_start b)).
Proof.
  unfold utf8_start.
  repeat match goal with
         | |- context [if ?c then _ else _] => destruct c
         end; cbn; lia.
Qed.

Lemma utf8_step_ok (st : option utf8_state) (b : N) :
  utf8_state_ok (snd (utf8_step st b)).
Proof.
  destruct st as [[[[cp needed] lo] hi]|]; cbn [utf8_step].
  - destruct ((lo <=? b) && (b <=? hi))%N.
    + destruct (needed =? 1)%N; cbn; lia.
    + pose proof (utf8_start_ok b) as H.
      destruct (utf8_start b) as [out st']. exact H.
  - apply utf8_start_ok.
Qed.

Lemma utf8_run_terminator (bs : list N) : forall st,
  utf8_state_ok st ->
  exists out, utf8_run st (bs ++ CRLFCRLF_units) = out ++ CRLFCRLF_units.
Proof.
  induction bs as [|b bs IH]; intros st Hok.
  - destruct st as [[[[cp needed] lo] hi]|].
    + exists [65533%N]. cbn in Hok. cbn [app utf8_run CRLFCRLF_units utf8_step].
      assert (E : (lo <=? 13)%N = false) by (apply N.leb_gt; lia).
      rewrite E. reflexivity.
    + exists []. reflexivity.
  - cbn [app utf8_run].
    pose proof (utf8_step_ok st b) as Hok'.
    destruct (utf8_step st b) as [out st']. cbn [snd] in Hok'.
    destruct (IH st' Hok') as [out' ->].
    exists (out ++ out'). now rewrite app_assoc.
Qed.

Lemma toString_terminator (d : Buffer) :
  exists s, toString (d ++ terminator) = s ++ CRLFCRLF.
Proof.
  unfold toString. rewrite map_app.
  change (List.map Byte.to_N terminator) with CRLFCRLF_units.
  destruct (@utf8_run_terminator (List.map Byte.to_N d) None I) as [out ->].
  exists (flat_map units_of out). rewrite flat_map_app. reflexivity.
Qed.

Lemma split_go_terminator (s : jsstring) : forall (skip : nat) (cur : jsstring),
  (skip <= List.length s)%nat ->
  exists pre x, split_go CRLF (s ++ CRLFCRLF) skip cur = pre ++ [x; []; []].
Proof.
  induction s as [|c s IH]; intros skip cur Hskip.
  - assert (skip = 0%nat) by (simpl in Hskip; lia). subst skip.
    exists [], cur. reflexivity.
  - cbn [app split_go]. destruct skip as [|k].
    + destruct (prefixb N.eqb CRLF (c :: s ++ CRLFCRLF)) eqn:E.
      * assert (Hs : (1 <= List.length s)%nat).
        { destruct s as [|c' s]; [|simpl; lia].
          change CRLF with [13; 10]%N in E.
          change ([] ++ CRLFCRLF) with [13; 10; 13; 10]%N in E.
          cbn [prefixb] in E.
          rewrite andb_true_iff in E. destruct E as [_ E].
          discriminate. }
        change (List.length CRLF - 1)%nat with 1%nat.
        destruct (IH 1%nat [] Hs) as (pre & x & ->).
        exists (cur :: pre), x. reflexivity.
      * destruct (IH 0%nat (cur ++ [c]) ltac:(lia)) as (pre & x & ->).
        exists pre, x. reflexivity.
    + destruct (IH k cur ltac:(simpl in Hskip; lia)) as (pre & x & ->).
      exists pre, x. reflexivity.
Qed.

Lemma removelast_tl_two {A : Type} (pre : list A) (x y z : A) :
  In y (removelast (tl (pre ++ [x; y; z]))).
Proof.
  destruct pre as [|a pre]; cbn [app tl].
  - cbn. now left.
  - induction pre as [|b pre IH].
    + cbn. right. now left.
    + change ((b :: pre) ++ [x; y; z]) with (b :: (pre ++ [x; y; z])).
      destruct (pre ++ [x; y; z]) eqn:E.
      * destruct pre; discriminate.
      * simpl. right. simpl in IH. exact IH.
Qed.

(** [parseHTTPReq] throws a 400 on every block that ends in [\r\n\r\n]. *)
Lemma parseHTTPReq_terminated_block (d : Buffer) :
  exists msg, parseHTTPReq (d ++ terminator) = Throw (HTTPError 400 msg).
Proof.
  unfold parseHTTPReq.
  destruct (parseRequestLine_throws_400 (hd [] (splitLines (d ++ terminator))))
    as [[[[m u] v] ->] | [msg ->]]; [|now exists msg].
  cbn [rbind].
  assert (Hin : In [] (removelast (tl (splitLines (d ++ terminator))))).
  { unfold splitLines. destruct (toString_terminator d) as [s ->].
    unfold split.
    destruct (@split_go_terminator s 0%nat [] ltac:(lia)) as (pre & x & ->).
    rewrite map_app. cbn [List.map].
    change (Buffer_from []) with (@nil byte).
    apply removelast_tl_two. }
  rewrite (parseFields_refuses _ [] Hin eq_refl).
  eexists; reflexivity.
Qed.

(** So [cutMessage] never returns a message: it asks for more data, or
    throws. *)
Lemma cutMessage_never_frames (buf : DynBuf) :
  cutMessage buf = Ok (None, buf)
  \/ exists e, cutMessage buf = Throw e.
Proof.
  unfold cutMessage.
  set (view := subarray (data buf) 0 (length buf)).
  destruct (buf_indexOf view CRLFCRLF <? 0) eqn:E.
  - destruct (length buf >=? kMaxHeaderLen); [right; eexists | left]; reflexivity.
  - right. unfold buf_indexOf in *.
    change (Buffer_from CRLFCRLF) with terminator in *.
    destruct (indexOf_from_spec Byte.eqb byte_eqb_eq terminator view 0)
      as [[Hn _] | (l1 & l2 & Hs & Hi)].
    { rewrite Hn in E. discriminate. }
    rewrite Hi, Hs. rewrite Z.add_0_l.
    assert (Hsub : subarray (l1 ++ terminator ++ l2) 0 (len l1 + 4) = l1 ++ terminator).
    { pose proof (len_nonneg l1). pose proof (len_nonneg l2).
      rewrite subarray_prefix.
      - rewrite app_assoc. apply firstn_app_exact.
        rewrite length_app. unfold len. simpl List.length. lia.
      - rewrite !len_app. change (len terminator) with 4. lia. }
    rewrite Hsub.
    destruct (parseHTTPReq_terminated_block l1) as [msg ->].
    eexists; reflexivity.
Qed.

(** A well-formed request for [/], run: [serveClient] refuses it with 400,
    having read its one chunk and written nothing, because the empty line
    that ends the block is validated as a header.  The step that would
    follow framing builds the reader and the response of [HandleReq] and
    leaves the connection as it found it. *)
Example serveClient_get_root :
  (exists buf : DynBuf,
      serveClient 2 (connect [get_root_wire])
      = (Throw (HTTPError 400 "bad field"),
         mkWorld [] [EvRead get_root_wire] buf)
      /\ content buf = get_root_wire)
  /\ (forall w : World,
        serveMessage get_root w
        = (Ok (mkHTTPRes 200 [blit "Server:my_first_http_server"]
                         (readerFromMemory hello_world)), w)).
Proof.
  split.
  - eexists. split; vm_compute; reflexivity.
  - intros w. reflexivity.
Qed.

(** What the peer of that request gets from [newConn] while it takes what is
    written: the head of a 400 response that announces ten bytes, then
    [bad field] once per turn of the writer's loop, which the in-memory
    reader does not end. *)
Example newConn_get_root :
  fst (newConn 3 (connect [get_root_wire])) = OutOfFuel
  /\ writes (trace (snd (newConn 3 (connect [get_root_wire]))))
     = [blit ("HTTP/1.1 400 OK" ++ CR_LF ++ "Content-Length: 10" ++ CR_LF ++ CR_LF);
        blit ("bad field" ++ LF); blit ("bad field" ++ LF); blit ("bad field" ++ LF)].
Proof. split; vm_compute; reflexivity. Qed.

(* ================================================================== *)
(** * Further properties of the code                                   *)
(* ================================================================== *)

(** ** The framer *)

Lemma cutMessage_terminated_400 (buf : DynBuf) :
  has_terminator (content buf) ->
  exists msg, cutMessage buf = Throw (HTTPError 400 msg).
Proof.
  intros Hterm. unfold cutMessage.
  fold (content buf).
  destruct (buf_indexOf (content buf) CRLFCRLF <? 0) eqn:E.
  { apply Z.ltb_lt in E. apply buf_indexOf_terminator in E. contradiction. }
  unfold buf_indexOf in *.
  change (Buffer_from CRLFCRLF) with terminator in *.
  destruct (indexOf_from_spec Byte.eqb byte_eqb_eq terminator (content buf) 0)
    as [[Hn _] | (l1 & l2 & Hs & Hi)].
  { rewrite Hn in E. discriminate. }
  rewrite Hi, Hs, Z.add_0_l.
  assert (Hsub : subarray (l1 ++ terminator ++ l2) 0 (len l1 + 4) = l1 ++ terminator).
  { pose proof (len_nonneg l1). pose proof (len_nonneg l2).
    rewrite subarray_prefix.
    - rewrite app_assoc. apply firstn_app_exact.
      rewrite length_app. unfold len. simpl List.length. lia.
    - rewrite !len_app. change (len terminator) with 4. lia. }
  rewrite Hsub.
  destruct (parseHTTPReq_terminated_block l1) as [msg ->].
  now exists msg.
Qed.


(** X1.  [cutMessage] throws a 400 protocol error exactly when the content
    of the buffer holds a [\r\n\r\n]: every complete header block is
    refused.  And no buffer makes [cutMessage] return a request. *)
Theorem cutMessage_rejects_terminated_block (buf : DynBuf) :
  (has_terminator (content buf) <->
   exists msg, cutMessage buf = Throw (HTTPError 400 msg))
  /\ (forall (req : HTTPReq) (buf' : DynBuf), cutMessage buf <> Ok (Some req, buf')).
Proof.
  split.
  - split; [apply cutMessage_terminated_400|].
    intros [msg Hmsg].
    unfold buf_indexOf in *.
    destruct (indexOf_from_spec Byte.eqb byte_eqb_eq terminator (content buf) 0)
      as [[Hn Hno] | (l1 & l2 & Hs & _)]; [|now exists l1, l2].
    exfalso. unfold cutMessage in Hmsg. fold (content buf) in Hmsg.
    unfold buf_indexOf in Hmsg.
    change (Buffer_from CRLFCRLF) with terminator in Hmsg.
    rewrite Hn in Hmsg. change (-1 <? 0) with true in Hmsg. cbv iota in Hmsg.
    destruct (length buf >=? kMaxHeaderLen); discriminate.
  - intros req buf' H.
    destruct (cutMessage_never_frames buf) as [E | [e E]];
      rewrite E in H; discriminate.
Qed.

(** ** Header validation *)

Lemma colon_not_tchar : is_tchar 58%N = false.
Proof. reflexivity. Qed.

Lemma forallb_tchar_no_colon (name : jsstring) :
  forallb is_tchar name = true -> ~ In 58%N name.
Proof.
  intros H Hin. rewrite forallb_forall in H. apply H in Hin.
  rewrite colon_not_tchar in Hin. discriminate.
Qed.

Lemma validateHeader_true_shape (h : Buffer) :
  validateHeader h = true ->
  exists name value : jsstring,
    toString h = name ++ 58%N :: value
    /\ name <> [] /\ (forall c, In c name -> In c token_chars)
    /\ value <> [].
Proof.
  unfold validateHeader. change (lit ":") with [58%N].
  remember (toString h) as str eqn:Estr. clear Estr h.
  unfold str_indexOf.
  destruct (indexOf_from_spec N.eqb N_eqb_eq [58%N] str 0)
    as [[Hn _] | (l1 & l2 & Hs & Hi)].
  { rewrite Hn. discriminate. }
  rewrite Hi, Z.add_0_l. subst str.
  destruct ((len l1 <=? 0) || (len l1 =? len (l1 ++ [58%N] ++ l2) - 1)) eqn:E;
    [discriminate|].
  apply orb_false_iff in E as [E1 E2].
  apply Z.leb_gt in E1. apply Z.eqb_neq in E2.
  unfold slice. rewrite Z.sub_0_r, to_nat_len. cbn [skipn Z.to_nat].
  rewrite firstn_app_exact by reflexivity.
  intros Htok. exists l1, l2. split; [reflexivity|].
  split; [intros ->; unfold len in E1; simpl in E1; lia|].
  split.
  + intros c Hc. apply is_tchar_iff.
    unfold token_test in Htok. destruct l1; [discriminate|].
    rewrite forallb_forall in Htok. now apply Htok.
  + intros ->. apply E2. rewrite len_app. unfold len; simpl List.length. lia.
Qed.

(** X2.  [validateHeader] accepts exactly the lines that read
    [name ":" value] with a non-empty name of token characters and a
    non-empty rest after the colon. *)
Theorem validateHeader_iff (h : Buffer) :
  validateHeader h = true <->
  exists name value : jsstring,
    toString h = name ++ 58%N :: value
    /\ name <> [] /\ (forall c, In c name -> In c token_chars)
    /\ value <> [].
Proof.
  split; [apply validateHeader_true_shape|].
  unfold validateHeader. change (lit ":") with [58%N].
  remember (toString h) as str eqn:Estr. clear Estr h.
  intros (name & value & -> & Hne & Htok & Hval).
  assert (Hall : forallb is_tchar name = true).
  { apply forallb_forall. intros c Hc. now apply is_tchar_iff, Htok. }
  rewrite str_indexOf_first by now apply forallb_tchar_no_colon.
  assert (0 < len name).
  { destruct name; [contradiction|]. unfold len; simpl List.length; lia. }
  assert (0 < len value).
  { destruct value; [contradiction|]. unfold len; simpl List.length; lia. }
  destruct (len name <=? 0) eqn:E1; [apply Z.leb_le in E1; lia|].
  destruct (len name =? len (name ++ 58%N :: value) - 1) eqn:E2.
  { apply Z.eqb_eq in E2. rewrite len_app in E2.
    change (58%N :: value) with ([58%N] ++ value) in E2.
    rewrite len_app in E2. change (len [58%N]) with 1 in E2. lia. }
  cbn [orb]. unfold slice. rewrite Z.sub_0_r, to_nat_len. cbn [skipn Z.to_nat].
  rewrite firstn_app_exact by reflexivity.
  unfold token_test. destruct name; [contradiction | exact Hall].
Qed.

(** ** Header lookup *)

Lemma first_occurrence (c : N) (s : jsstring) :
  In c s -> exists name rest, s = name ++ c :: rest /\ ~ In c name.
Proof.
  induction s as [|x s IH]; [intros []|].
  intros Hin. destruct (N.eq_dec x c) as [-> | Hne].
  - exists [], s. split; [reflexivity | intros []].
  - destruct Hin as [-> | Hin]; [contradiction|].
    destruct (IH Hin) as (name & rest & -> & Hnot).
    exists (x :: name), rest. split; [reflexivity|].
    intros [E | H]; [congruence | contradiction].
Qed.

Lemma first_occurrence_unique (c : N) (n1 r1 n2 r2 : jsstring) :
  n1 ++ c :: r1 = n2 ++ c :: r2 -> ~ In c n1 -> ~ In c n2 ->
  n1 = n2 /\ r1 = r2.
Proof.
  revert n2; induction n1 as [|x n1 IH]; intros n2 E H1 H2.
  - destruct n2 as [|y n2]; cbn [app] in E.
    + injection E as ->. now split.
    + injection E as <- _. exfalso. apply H2. now left.
  - destruct n2 as [|y n2]; cbn [app] in E.
    + injection E as -> _. exfalso. apply H1. now left.
    + injection E as -> E.
      destruct (IH n2 E) as [-> ->].
      * intros H; apply H1; now right.
      * intros H; apply H2; now right.
      * now split.
Qed.

Lemma fieldGet_lower_match (h : Buffer) (t : list Buffer) (key : jsstring) (v : Buffer) :
  line_names h key v -> fieldGet_lower (h :: t) (toLowerCase key) = Some v.
Proof.
  intros (name & rest & (Hs & Hnot & Hne) & Hkey & ->).
  cbn [fieldGet_lower]. change (lit ":") with [58%N].
  rewrite Hs, str_indexOf_first by exact Hnot.
  assert (0 < len name).
  { destruct name; [contradiction|]. unfold len; simpl List.length; lia. }
  destruct (len name <=? 0) eqn:E; [apply Z.leb_le in E; lia|].
  unfold slice, slice_from. rewrite Z.sub_0_r, to_nat_len. cbn [skipn Z.to_nat].
  rewrite firstn_app_exact by reflexivity.
  rewrite Hkey.
  destruct (str_eqb (toLowerCase key) (toLowerCase key)) eqn:Eq.
  - replace (Z.to_nat (len name + 1)) with (List.length (name ++ [58%N]))
      by (rewrite length_app; unfold len; simpl List.length; lia).
    change (name ++ 58%N :: rest) with (name ++ [58%N] ++ rest).
    rewrite app_assoc, skipn_app_exact_len. reflexivity.
  - assert (str_eqb (toLowerCase key) (toLowerCase key) = true)
      by now apply str_eqb_iff.
    congruence.
Qed.

Lemma fieldGet_lower_miss (h : Buffer) (t : list Buffer) (key : jsstring) :
  line_misses h key ->
  fieldGet_lower (h :: t) (toLowerCase key) = fieldGet_lower t (toLowerCase key).
Proof.
  intros Hmiss. cbn [fieldGet_lower]. change (lit ":") with [58%N].
  destruct Hmiss as [Hno | [[rest Hs] | (name & rest & (Hs & Hnot & Hne) & Hkey)]].
  - rewrite str_indexOf_absent by exact Hno. reflexivity.
  - rewrite Hs. change (58%N :: rest) with ([] ++ 58%N :: rest).
    rewrite str_indexOf_first by (intros []). reflexivity.
  - rewrite Hs, str_indexOf_first by exact Hnot.
    destruct (len name <=? 0); [reflexivity|].
    unfold slice. rewrite Z.sub_0_r, to_nat_len. cbn [skipn Z.to_nat].
    rewrite firstn_app_exact by reflexivity.
    now rewrite (str_eqb_neq Hkey).
Qed.

(** Every line either names the key or misses it. *)
Lemma line_names_or_misses (h : Buffer) (key : jsstring) :
  line_misses h key \/ exists v, line_names h key v.
Proof.
  destruct (in_dec N.eq_dec 58%N (toString_latin1 h)) as [Hin | Hno];
    [|left; now left].
  destruct (first_occurrence _ _ Hin) as (name & rest & Hs & Hnot).
  destruct name as [|x name].
  - left. right. left. now exists rest.
  - destruct (list_eq_dec N.eq_dec (toLowerCase (trim (x :: name))) (toLowerCase key))
      as [E | E].
    + right. exists (Buffer_from (trim rest)), (x :: name), rest.
      repeat split; try assumption. discriminate.
    + left. right. right. exists (x :: name), rest.
      repeat split; try assumption. discriminate.
Qed.

Lemma line_names_not_misses (h : Buffer) (key : jsstring) (v : Buffer) :
  line_names h key v -> line_misses h key -> False.
Proof.
  intros (name & rest & (Hs & Hnot & Hne) & Hkey & _)
         [Hno | [[rest' Hs'] | (name' & rest' & (Hs' & Hnot' & _) & Hkey')]].
  - apply Hno. rewrite Hs. apply in_or_app. right. now left.
  - rewrite Hs in Hs'. destruct name; [contradiction|].
    injection Hs' as -> _. apply Hnot. now left.
  - rewrite Hs in Hs'.
    destruct (first_occurrence_unique _ _ _ _ _ Hs' Hnot Hnot') as [-> _].
    contradiction.
Qed.

(** X4.  [fieldGet] returns [null] exactly when no line of the list names
    the key: a missing field is no error. *)
Theorem fieldGet_none_iff (hs : list Buffer) (key : jsstring) :
  fieldGet hs key = None <-> Forall (fun h => line_misses h key) hs.
Proof.
  unfold fieldGet. induction hs as [|h hs IH].
  - split; [constructor | reflexivity].
  - destruct (line_names_or_misses h key) as [Hmiss | [v Hv]].
    + rewrite (fieldGet_lower_miss _ Hmiss), IH. split.
      * intros H. now constructor.
      * intros H. now inversion H.
    + rewrite (fieldGet_lower_match _ Hv). split; [discriminate|].
      intros H. inversion H; subst. exfalso.
      eapply line_names_not_misses; eassumption.
Qed.

(** X5.  [fieldGet] returns a value exactly when some line names the key,
    and then it is the value of the first such line: the name is compared
    without case and trimmed, the value is trimmed, later lines of the same
    name are not looked at. *)
Theorem fieldGet_some_iff (hs : list Buffer) (key : jsstring) (v : Buffer) :
  fieldGet hs key = Some v <->
  exists pre h post,
    hs = pre ++ h :: post
    /\ Forall (fun x => line_misses x key) pre
    /\ line_names h key v.
Proof.
  unfold fieldGet. induction hs as [|h hs IH].
  - split; [discriminate|]. intros (pre & x & post & E & _). destruct pre; discriminate.
  - destruct (line_names_or_misses h key) as [Hmiss | [v' Hv']].
    + rewrite (fieldGet_lower_miss _ Hmiss), IH. split.
      * intros (pre & x & post & -> & Hpre & Hx).
        exists (h :: pre), x, post. split; [reflexivity|]. split; [now constructor | exact Hx].
      * intros (pre & x & post & E & Hpre & Hx).
        destruct pre as [|p pre]; cbn [app] in E; injection E as <- ->.
        -- exfalso. eapply line_names_not_misses; eassumption.
        -- inversion Hpre; subst. now exists pre, x, post.
    + rewrite (fieldGet_lower_match _ Hv'). split.
      * intros E. injection E as <-. exists [], h, hs.
        split; [reflexivity|]. split; [constructor | exact Hv'].
      * intros (pre & x & post & E & Hpre & Hx).
        destruct pre as [|p pre]; cbn [app] in E; injection E as <- ->.
        -- destruct Hv' as (n1 & r1 & (Hs1 & Hn1 & _) & _ & ->).
           destruct Hx as (n2 & r2 & (Hs2 & Hn2 & _) & _ & ->).
           rewrite Hs1 in Hs2.
           destruct (first_occurrence_unique _ _ _ _ _ Hs2 Hn1 Hn2) as [_ ->].
           reflexivity.
        -- inversion Hpre as [|? ? Hh Hrest]; subst. exfalso.
           exact (line_names_not_misses Hv' Hh).
Qed.

(** ** Decimal numbers: [parseDec] and the template [`${n}`] *)

Lemma lit_String (c : ascii) (s : string) : lit (String c s) = N_of_ascii c :: lit s.
Proof. reflexivity. Qed.

(** The digits of a decimal numeral, read back. *)
Lemma digits_value_acc (d : Decimal.uint) : forall acc : positive,
  fold_left (fun a c => a * 10 + (Z.of_N c - 48))
            (lit (NilEmpty.string_of_uint d)) (Z.pos acc)
  = Z.pos (Pos.of_uint_acc d acc).
Proof.
  induction d; intros acc; cbn [NilEmpty.string_of_uint Pos.of_uint_acc];
    [reflexivity | ..];
    rewrite lit_String; cbn [fold_left];
    match goal with
    | |- fold_left _ _ ?z = Z.pos (Pos.of_uint_acc _ ?p) =>
        replace z with (Z.pos p)
          by (match goal with
              | |- context [Z.of_N ?c] =>
                  let k := eval vm_compute in (Z.of_N c) in
                  change (Z.of_N c) with k
              end; lia)
    end; apply IHd.
Qed.

Lemma digits_value_uint (d : Decimal.uint) :
  digits_value (lit (NilEmpty.string_of_uint d)) = Z.of_N (Pos.of_uint d).
Proof.
  unfold digits_value.
  induction d; cbn [NilEmpty.string_of_uint Pos.of_uint];
    [reflexivity | rewrite lit_String; cbn [fold_left]; exact IHd | ..];
    rewrite lit_String; cbn [fold_left];
    match goal with
    | |- fold_left _ _ ?z = Z.of_N (N.pos (Pos.of_uint_acc _ ?p)) =>
        replace z with (Z.pos p)
          by (match goal with
              | |- context [Z.of_N ?c] =>
                  let k := eval vm_compute in (Z.of_N c) in
                  change (Z.of_N c) with k
              end; lia)
    end; apply digits_value_acc.
Qed.

Lemma uint_all_digits (d : Decimal.uint) :
  all_digits (lit (NilEmpty.string_of_uint d)).
Proof.
  unfold all_digits.
  induction d; cbn [NilEmpty.string_of_uint]; [exact (Forall_nil _) | ..];
    rewrite lit_String; (apply Forall_cons; [reflexivity | exact IHd]).
Qed.

Lemma pos_to_uint_nonnil (p : positive) : Pos.to_uint p <> Decimal.Nil.
Proof.
  intros E. pose proof (DecimalPos.Unsigned.of_to p) as H.
  rewrite E in H. discriminate.
Qed.

Lemma lit_uint_nonempty (d : Decimal.uint) :
  d <> Decimal.Nil -> lit (NilEmpty.string_of_uint d) <> [].
Proof. destruct d; [contradiction | ..]; discriminate. Qed.

(** The text of [n]: an optional minus sign and the digits of [|n|]. *)
Lemma num_to_string_shape (n : Z) :
  exists ds, all_digits ds /\ ds <> [] /\ digits_value ds = Z.abs n
             /\ num_to_string n = (if n <? 0 then [45%N] else []) ++ ds.
Proof.
  unfold num_to_string. destruct n as [|p|p]; cbn [Z.to_int NilZero.string_of_int].
  - exists [48%N]. repeat split; try discriminate. repeat constructor.
  - exists (lit (NilEmpty.string_of_uint (Pos.to_uint p))).
    split; [apply uint_all_digits|]. split; [apply lit_uint_nonempty, pos_to_uint_nonnil|].
    split.
    + rewrite digits_value_uint, DecimalPos.Unsigned.of_to. reflexivity.
    + unfold NilZero.string_of_uint.
      pose proof (pos_to_uint_nonnil p). now destruct (Pos.to_uint p).
  - exists (lit (NilEmpty.string_of_uint (Pos.to_uint p))).
    split; [apply uint_all_digits|]. split; [apply lit_uint_nonempty, pos_to_uint_nonnil|].
    split.
    + rewrite digits_value_uint, DecimalPos.Unsigned.of_to. reflexivity.
    + unfold NilZero.string_of_uint. rewrite lit_String.
      pose proof (pos_to_uint_nonnil p). now destruct (Pos.to_uint p).
Qed.

(** X6.  [parseDec] reads back the text of every integer [n] that a double
    holds exactly ([|n| <= 2^53]), also after white space and whatever
    follows the digits, as long as that is no digit: [parseDec(" 42abc")]
    is 42. *)
Theorem parseDec_reads_leading_number (n : Z) (ws rest : jsstring) :
  Z.abs n <= 2 ^ 53 ->
  all_spaces ws -> ~ starts_with_digit rest ->
  parseDec (ws ++ num_to_string n ++ rest) = Some n.
Proof.
  intros _ Hws Hrest. unfold parseDec.
  destruct (num_to_string_shape n) as (ds & Hds & Hne & Hval & ->).
  destruct (@parseInt10_leading ws ds rest Hws Hds Hne Hrest) as (Hplain & Hminus & _).
  destruct (n <? 0) eqn:En.
  - apply Z.ltb_lt in En.
    change (ws ++ ([45%N] ++ ds) ++ rest) with (ws ++ 45%N :: ds ++ rest).
    rewrite Hminus, Hval. f_equal; lia.
  - apply Z.ltb_ge in En.
    change (ws ++ ([] ++ ds) ++ rest) with (ws ++ ds ++ rest).
    rewrite Hplain, Hval. f_equal; lia.
Qed.

Lemma parseDec_reads_leading_number_witness :
  parseDec (lit "  " ++ num_to_string 42 ++ lit "abc") = Some 42.
Proof.
  apply (@parseDec_reads_leading_number 42 (lit "  ") (lit "abc")).
  - vm_compute. discriminate.
  - repeat constructor.
  - vm_compute. discriminate.
Defined.

(** X7.  [parseDec] gives [NaN] when, after white space and at most one
    sign, the text does not go on with a digit: the empty text, [abc],
    [-], [+-5]. *)
Theorem parseDec_nan (ws rest : jsstring) :
  all_spaces ws -> ~ starts_with_digit rest ->
  parseDec (ws ++ 45%N :: rest) = None
  /\ parseDec (ws ++ 43%N :: rest) = None
  /\ (match rest with
      | c :: _ => is_space c = false /\ c <> 45%N /\ c <> 43%N
      | [] => True
      end -> parseDec (ws ++ rest) = None).
Proof.
  intros Hws Hrest. unfold parseDec, parseInt10.
  assert (Hnone : digits_of rest = []).
  { destruct rest as [|c rest]; [reflexivity|].
    cbn [starts_with_digit] in Hrest. cbn [digits_of]. now destruct (is_digit c). }
  split; [|split].
  - rewrite (@trimStart_spaces ws (45%N :: rest) Hws). cbn [trimStart]. change (is_space 45) with false. cbv iota.
    change (45 =? 45)%N with true. cbv iota. now rewrite Hnone.
  - rewrite (@trimStart_spaces ws (43%N :: rest) Hws).
    cbn [trimStart]. change (is_space 43) with false. cbv iota.
    change (43 =? 45)%N with false. change (43 =? 43)%N with true. cbv iota.
    now rewrite Hnone.
  - rewrite (@trimStart_spaces ws rest Hws).
    destruct rest as [|c rest]; [reflexivity|].
    intros (Hsp & H45 & H43). cbn [trimStart]. rewrite Hsp.
    apply N.eqb_neq in H45. apply N.eqb_neq in H43. rewrite H45, H43.
    now rewrite Hnone.
Qed.

Lemma parseDec_nan_witness :
  parseDec (lit " " ++ 45%N :: lit "x1") = None
  /\ parseDec (lit " " ++ 43%N :: lit "x1") = None
  /\ (match lit "x1" with
      | c :: _ => is_space c = false /\ c <> 45%N /\ c <> 43%N
      | [] => True
      end -> parseDec (lit " " ++ lit "x1") = None).
Proof.
  apply (@parseDec_nan (lit " ") (lit "x1")).
  - repeat constructor.
  - vm_compute. discriminate.
Defined.

(** ** Text of the ASCII range passes through buffers unchanged *)

Lemma byte_of_N_to_N (b : byte) : byte_of_N (Byte.to_N b) = b.
Proof.
  unfold byte_of_N. pose proof (Byte.to_N_bounded b) as Hb.
  rewrite N.mod_small by lia. now rewrite Byte.of_to_N.
Qed.

Lemma byte_to_N_of_N (c : N) : (c < 256)%N -> Byte.to_N (byte_of_N c) = c.
Proof.
  intros Hc. unfold byte_of_N. rewrite N.mod_small by exact Hc.
  destruct (Byte.of_N c) as [b|] eqn:E.
  - now apply Byte.to_of_N.
  - apply Byte.of_N_None_iff in E. lia.
Qed.

Lemma utf8_encode_ascii (s : jsstring) : ascii_text s -> utf8_encode s = s.
Proof.
  induction 1 as [|c s Hc _ IH]; [reflexivity|].
  cbn [utf8_encode]. unfold is_high, is_low, utf8_bytes.
  destruct (N.leb_spec 55296 c); [lia|]. cbn [andb].
  destruct (N.leb_spec 56320 c); [lia|]. cbn [andb].
  destruct (N.ltb_spec c 128); [|lia]. cbn [app]. now rewrite IH.
Qed.

Lemma utf8_encode_app_ascii (a b : jsstring) :
  ascii_text a -> utf8_encode (a ++ b) = a ++ utf8_encode b.
Proof.
  induction 1 as [|c s Hc _ IH]; [reflexivity|].
  cbn [app utf8_encode]. unfold is_high, is_low, utf8_bytes.
  destruct (N.leb_spec 55296 c); [lia|]. cbn [andb].
  destruct (N.leb_spec 56320 c); [lia|]. cbn [andb].
  destruct (N.ltb_spec c 128); [|lia]. cbn [app]. now rewrite IH.
Qed.

Lemma Buffer_from_app_ascii (a b : jsstring) :
  ascii_text a -> Buffer_from (a ++ b) = Buffer_from a ++ Buffer_from b.
Proof.
  intros Ha. unfold Buffer_from.
  rewrite (utf8_encode_app_ascii b Ha), (utf8_encode_ascii Ha).
  apply map_app.
Qed.

Lemma latin1_Buffer_from_ascii (s : jsstring) :
  ascii_text s -> toString_latin1 (Buffer_from s) = s.
Proof.
  intros Hs. unfold toString_latin1, Buffer_from.
  rewrite (utf8_encode_ascii Hs), map_map.
  induction Hs as [|c s Hc _ IH]; [reflexivity|].
  cbn [List.map]. rewrite IH, byte_to_N_of_N by lia. reflexivity.
Qed.

Lemma all_digits_ascii (ds : jsstring) : all_digits ds -> ascii_text ds.
Proof.
  intros H. eapply Forall_impl; [|exact H].
  intros c Hc. unfold is_digit in Hc. apply andb_true_iff in Hc as [_ Hc].
  apply N.leb_le in Hc. lia.
Qed.

Lemma num_to_string_ascii (n : Z) : ascii_text (num_to_string n).
Proof.
  destruct (num_to_string_shape n) as (ds & Hds & _ & _ & ->).
  apply Forall_app. split; [|now apply all_digits_ascii].
  destruct (n <? 0); repeat constructor.
Qed.

Lemma trimStart_id (c : N) (t : jsstring) :
  is_space c = false -> trimStart (c :: t) = c :: t.
Proof. intros H. cbn [trimStart]. now rewrite H. Qed.

Lemma trimEnd_ends_with_digit (s ds : jsstring) :
  all_digits ds -> ds <> [] -> trimEnd (s ++ ds) = s ++ ds.
Proof.
  intros Hds Hne. unfold trimEnd. rewrite rev_app_distr.
  assert (Hrev : all_digits (rev ds)) by now apply Forall_rev.
  destruct (rev ds) as [|c t] eqn:E.
  - exfalso. apply Hne. rewrite <- (rev_involutive ds), E. reflexivity.
  - inversion Hrev; subst. cbn [app].
    rewrite trimStart_id by now apply digit_not_space.
    change (c :: t ++ rev s) with ((c :: t) ++ rev s).
    now rewrite <- E, <- rev_app_distr, rev_involutive.
Qed.

Lemma trim_space_num_to_string (n : Z) :
  trim (32%N :: num_to_string n) = num_to_string n.
Proof.
  destruct (num_to_string_shape n) as (ds & Hds & Hne & _ & E).
  unfold trim. cbn [trimStart]. change (is_space 32) with true. cbv iota.
  rewrite E.
  destruct (n <? 0).
  - cbn [app]. rewrite trimStart_id by reflexivity.
    change (45%N :: ds) with ([45%N] ++ ds). now apply trimEnd_ends_with_digit.
  - cbn [app]. destruct ds as [|d ds]; [contradiction|].
    inversion Hds; subst.
    rewrite trimStart_id by now apply digit_not_space.
    now apply (trimEnd_ends_with_digit []).
Qed.

Lemma parseDec_num_to_string (n : Z) : parseDec (num_to_string n) = Some n.
Proof.
  unfold parseDec.
  destruct (num_to_string_shape n) as (ds & Hds & Hne & Hval & ->).
  destruct (@parseInt10_leading [] ds [] (Forall_nil _) Hds Hne (fun H => H))
    as (Hplain & Hminus & _).
  cbn [app] in Hplain, Hminus. rewrite app_nil_r in Hplain, Hminus.
  destruct (n <? 0) eqn:En.
  - apply Z.ltb_lt in En. cbn [app]. rewrite Hminus, Hval. f_equal; lia.
  - apply Z.ltb_ge in En. cbn [app]. rewrite Hplain, Hval. f_equal; lia.
Qed.

Lemma fieldGet_lower_skip (pre t : list Buffer) (key : jsstring) :
  Forall (fun h => line_misses h key) pre ->
  fieldGet_lower (pre ++ t) (toLowerCase key) = fieldGet_lower t (toLowerCase key).
Proof.
  induction 1 as [|h pre Hh _ IH]; [reflexivity|].
  cbn [app]. now rewrite (fieldGet_lower_miss _ Hh).
Qed.

(** The line [writeHTTPResp] adds for a body of [n] bytes. *)
Lemma content_length_line_names (n : Z) :
  line_names (Buffer_from (lit "Content-Length: " ++ num_to_string n))
             (lit "Content-Length") (Buffer_from (num_to_string n)).
Proof.
  exists (lit "Content-Length"), (32%N :: num_to_string n).
  split; [|split].
  - split; [|split].
    + rewrite latin1_Buffer_from_ascii.
      * reflexivity.
      * apply Forall_app. split; [|apply num_to_string_ascii].
        apply Forall_forall. intros c Hc.
        assert (G : forallb (fun c => (c <? 128)%N) (lit "Content-Length: ") = true)
          by reflexivity.
        rewrite forallb_forall in G. apply N.ltb_lt. now apply G.
    + vm_compute. intuition discriminate.
    + discriminate.
  - reflexivity.
  - now rewrite trim_space_num_to_string.
Qed.

(** X8.  The [Content-Length] line that [writeHTTPResp] appends for a body
    of [n] bytes ([0 <= n <= 2^53], where a double is exact) is read back as
    [n] by [fieldGet] and [parseDec], when no earlier header of the response
    has that name. *)
Theorem content_length_header_round_trip (n : Z) (pre : list Buffer) :
  0 <= n <= 2 ^ 53 ->
  Forall (fun h => line_misses h (lit "Content-Length")) pre ->
  exists cl : Buffer,
    fieldGet (pre ++ [Buffer_from (lit "Content-Length: " ++ num_to_string n)])
             (lit "Content-Length") = Some cl
    /\ parseDec (toString_latin1 cl) = Some n.
Proof.
  intros _ Hpre. exists (Buffer_from (num_to_string n)). split.
  - unfold fieldGet. rewrite (fieldGet_lower_skip _ Hpre).
    apply fieldGet_lower_match, content_length_line_names.
  - rewrite latin1_Buffer_from_ascii by apply num_to_string_ascii.
    apply parseDec_num_to_string.
Qed.

Lemma content_length_header_round_trip_witness :
  exists cl : Buffer,
    fieldGet ([blit "Server:my_first_http_server"]
              ++ [Buffer_from (lit "Content-Length: " ++ num_to_string 13)])
             (lit "Content-Length") = Some cl
    /\ parseDec (toString_latin1 cl) = Some 13.
Proof.
  apply (@content_length_header_round_trip 13 [blit "Server:my_first_http_server"]).
  - split; vm_compute; discriminate.
  - constructor; [|constructor].
    right. right. exists (lit "Server"), (lit "my_first_http_server").
    split; [split; [reflexivity | split; [vm_compute; intuition discriminate | discriminate]]|].
    vm_compute. discriminate.
Defined.

(** X9.  A request whose method allows a body and that declares neither a
    non-negative [Content-Length] nor chunked encoding gets the 501 protocol
    error [unknown body type]: the factory never reads until the end of the
    connection. *)
Theorem readerFromReq_unknown_body (req : HTTPReq) :
  body_allowed req ->
  no_content_length req \/ (exists n, content_length_is req n /\ n < 0) ->
  ~ declares_chunked req ->
  readerFromReq req = Throw (HTTPError 501 "unknown body type").
Proof.
  intros Hallowed Hlen Hch.
  apply body_allowed_flag in Hallowed.
  assert (Hflag : match fieldGet (headers req) (lit "Transfer-Encoding") with
                  | Some te => buf_eqb te (Buffer_from (lit "chunked"))
                  | None => false
                  end = false).
  { apply not_true_iff_false. intros H. now apply Hch, chunked_flag. }
  unfold readerFromReq.
  destruct Hlen as [Hnone | (n & (cl & Hcl & Hparse) & Hneg)].
  - unfold no_content_length in Hnone. rewrite Hnone. cbn [rbind].
    rewrite Hallowed, Hflag. reflexivity.
  - rewrite Hcl, Hparse. cbn [rbind]. rewrite Hallowed, Hflag. cbn [negb andb].
    destruct (n >=? 0) eqn:E; [|reflexivity].
    rewrite Z.geb_leb in E. apply Z.leb_le in E. lia.
Qed.

Lemma readerFromReq_unknown_body_witness :
  readerFromReq (mkHTTPReq (lit "POST") (blit "/") (lit "1.1") [blit "Host: example"])
  = Throw (HTTPError 501 "unknown body type").
Proof.
  apply (@readerFromReq_unknown_body
           (mkHTTPReq (lit "POST") (blit "/") (lit "1.1") [blit "Host: example"])).
  - split; vm_compute; discriminate.
  - left. vm_compute. reflexivity.
  - vm_compute. discriminate.
Defined.

(** ** The dynamic buffer at its edges *)

(** X10.  [bufPop] does not check its argument.  Popping more than the
    buffer holds, but within its capacity, copies nothing and leaves a
    negative [length], outside the invariant; popping past the capacity, or
    a negative count, is the [RangeError] of [Buffer.copy]. *)
Theorem bufPop_out_of_range (buf : DynBuf) (n : Z) :
  wf buf ->
  (length buf < n <= capacity buf ->
   bufPop buf n = Ok (mkDynBuf (data buf) (length buf - n))
   /\ ~ wf (mkDynBuf (data buf) (length buf - n)))
  /\ (n < 0 \/ capacity buf < n -> bufPop buf n = Throw (RangeError "sourceStart")).
Proof.
  intros [H0 Hcap]. unfold capacity in *. unfold bufPop, Buffer_copy. split.
  - intros [Hlt Hle].
    assert (E0 : (0 <? 0) = false) by reflexivity. rewrite E0.
    destruct (n <? 0) eqn:E1; [apply Z.ltb_lt in E1; lia|].
    destruct (len (data buf) <? n) eqn:E2; [apply Z.ltb_lt in E2; lia|].
    destruct (length buf <? 0) eqn:E3; [apply Z.ltb_lt in E3; lia|].
    cbn [orb].
    destruct (length buf <=? n) eqn:E4; [|apply Z.leb_gt in E4; lia].
    rewrite orb_true_r. cbn [rbind]. split; [reflexivity|].
    unfold wf; cbn [length]. lia.
  - intros Hbad.
    assert (E0 : (0 <? 0) = false) by reflexivity. rewrite E0.
    destruct ((n <? 0) || (len (data buf) <? n)) eqn:E; [reflexivity|].
    apply orb_false_iff in E as [E1 E2].
    apply Z.ltb_ge in E1. apply Z.ltb_ge in E2. lia.
Qed.

Lemma bufPop_out_of_range_witness :
  (length (mkDynBuf (blit "abcdefgh") 3) < 5 <= capacity (mkDynBuf (blit "abcdefgh") 3) ->
   bufPop (mkDynBuf (blit "abcdefgh") 3) 5
   = Ok (mkDynBuf (data (mkDynBuf (blit "abcdefgh") 3))
                  (length (mkDynBuf (blit "abcdefgh") 3) - 5))
   /\ ~ wf (mkDynBuf (data (mkDynBuf (blit "abcdefgh") 3))
                     (length (mkDynBuf (blit "abcdefgh") 3) - 5)))
  /\ (5 < 0 \/ capacity (mkDynBuf (blit "abcdefgh") 3) < 5 ->
      bufPop (mkDynBuf (blit "abcdefgh") 3) 5 = Throw (RangeError "sourceStart")).
Proof.
  apply (@bufPop_out_of_range (mkDynBuf (blit "abcdefgh") 3) 5).
  split; vm_compute; discriminate.
Defined.

(** X11.  Any sequence of pushes on a buffer within its invariant succeeds
    and keeps the invariant; the content is the old content followed by the
    chunks in order; the capacity never shrinks, and it never exceeds the
    largest of the old capacity, 32, and twice the new length. *)
Theorem bufPushAll_ok (ds : list Buffer) : forall buf : DynBuf,
  wf buf ->
  exists buf' : DynBuf,
    bufPushAll buf ds = Ok buf'
    /\ wf buf'
    /\ content buf' = content buf ++ List.concat ds
    /\ capacity buf <= capacity buf'
    /\ capacity buf' <= Z.max (capacity buf) (Z.max 32 (2 * length buf')).
Proof.
  induction ds as [|d ds IH]; intros buf Hwf.
  - exists buf. cbn [bufPushAll List.concat]. rewrite app_nil_r.
    repeat split; try apply Hwf; lia.
  - destruct (bufPush_ok d Hwf) as (b1 & Hpush & Hwf1 & Hlen1 & Hc1 & Hkeep & Hgrow).
    destruct (IH b1 Hwf1) as (b2 & Hall & Hwf2 & Hc2 & Hmono & Hbound).
    exists b2. cbn [bufPushAll List.concat]. rewrite Hpush. cbn [rbind].
    split; [exact Hall|]. split; [exact Hwf2|].
    split; [now rewrite Hc2, Hc1, app_assoc|].
    pose proof (len_nonneg d) as Hd.
    assert (Hlen2 : length b1 <= length b2).
    { rewrite <- (len_content Hwf2), <- (len_content Hwf1), Hc2, len_app.
      pose proof (len_nonneg (List.concat ds)). lia. }
    destruct (Z_le_gt_dec (length buf + len d) (capacity buf)) as [Hfit | Hbig].
    + rewrite (Hkeep Hfit) in *. split; lia.
    + destruct (Hgrow ltac:(lia)) as (k & Hk & Hcap1 & Hge & Hmin).
      destruct Hwf as [? ?].
      assert (Hb1 : capacity buf <= capacity b1
                    /\ capacity b1 <= Z.max 32 (2 * length b1)).
      { destruct (Z.eq_dec k 0) as [-> | Hk0].
        - change (2 ^ 0) with 1 in Hcap1. lia.
        - specialize (Hmin ltac:(lia)). lia. }
      split; lia.
Qed.

Lemma bufPushAll_ok_witness :
  exists buf' : DynBuf,
    bufPushAll (mkDynBuf [] 0) [blit "GET / HT"; blit "TP/1.1"] = Ok buf'
    /\ wf buf'
    /\ content buf' = content (mkDynBuf [] 0)
                      ++ List.concat [blit "GET / HT"; blit "TP/1.1"]
    /\ capacity (mkDynBuf [] 0) <= capacity buf'
    /\ capacity buf' <= Z.max (capacity (mkDynBuf [] 0)) (Z.max 32 (2 * length buf')).
Proof.
  apply (@bufPushAll_ok [blit "GET / HT"; blit "TP/1.1"] (mkDynBuf [] 0)).
  split; vm_compute; discriminate.
Defined.

(** ** What the factory returns *)

(** X12.  For a request without a [Content-Length], or with one that parses
    to a number of at most [2^53] in magnitude: every reader [readerFromReq]
    returns is a length-bounded reader of a length [n] between 0 and [2^53]
    with [n] bytes remaining, and [n] is 0 for [GET] and [HEAD]; so the
    response [HandleReq] builds from it never has the negative length that
    [writeHTTPResp] refuses. *)
Theorem readerFromReq_reader_shape (req : HTTPReq) (r : BodyReader) :
  (forall n, content_length_is req n -> Z.abs n <= 2 ^ 53) ->
  readerFromReq req = Ok r ->
  exists n : Z,
    0 <= n <= 2 ^ 53 /\ r = readerFromConLength n
    /\ (bodyless_method req -> n = 0)
    /\ 0 <= body_length (body (HandleReq req r)).
Proof.
  intros Hbound. unfold readerFromReq.
  assert (Hcl : forall bodyLen,
             match fieldGet (headers req) (lit "Content-Length") with
             | Some c => match parseDec (toString_latin1 c) with
                         | Some n => Ok n
                         | None => Throw (HTTPError 400 "bad Content-Length")
                         end
             | None => Ok (-1)
             end = Ok bodyLen -> bodyLen <= 2 ^ 53).
  { intros bodyLen. unfold content_length_is in Hbound.
    destruct (fieldGet (headers req) (lit "Content-Length")) as [c|].
    - destruct (parseDec (toString_latin1 c)) as [n|] eqn:Ep; [|discriminate].
      intros H. injection H as <-.
      specialize (Hbound n (ex_intro _ c (conj eq_refl Ep))). lia.
    - intros H. injection H as <-. lia. }
  set (cl := match fieldGet (headers req) (lit "Content-Length") with
             | Some c => match parseDec (toString_latin1 c) with
                         | Some n => Ok n
                         | None => Throw (HTTPError 400 "bad Content-Length")
                         end
             | None => Ok (-1)
             end) in *.
  destruct cl as [bodyLen | e |]; cbn [rbind]; try discriminate.
  specialize (Hcl bodyLen eq_refl).
  set (allowed := negb (str_eqb (method req) (lit "GET")
                        || str_eqb (method req) (lit "HEAD"))).
  set (chunked := match fieldGet (headers req) (lit "Transfer-Encoding") with
                  | Some te => buf_eqb te (Buffer_from (lit "chunked"))
                  | None => false
                  end).
  destruct (negb allowed && ((bodyLen >? 0) || chunked)); [discriminate|].
  destruct ((if negb allowed then 0 else bodyLen) >=? 0) eqn:E;
    [|destruct chunked; discriminate].
  intros H. injection H as <-.
  rewrite Z.geb_leb in E. apply Z.leb_le in E.
  exists (if negb allowed then 0 else bodyLen).
  split; [|split; [reflexivity|split]].
  - split; [exact E|]. destruct (negb allowed); [|exact Hcl].
    vm_compute. discriminate.
  - intros Hm. apply bodyless_method_flag in Hm. fold allowed in Hm.
    now rewrite Hm.
  - unfold HandleReq. cbn [body].
    destruct (str_eqb (toString_latin1 (uri req)) (lit "/echo")).
    + exact E.
    + apply len_nonneg.
Qed.

Lemma readerFromReq_reader_shape_witness :
  exists n : Z,
    0 <= n <= 2 ^ 53 /\ readerFromConLength 11 = readerFromConLength n
    /\ (bodyless_method req_post_11 -> n = 0)
    /\ 0 <= body_length (body (HandleReq req_post_11 (readerFromConLength 11))).
Proof.
  apply (@readerFromReq_reader_shape req_post_11 (readerFromConLength 11)).
  - intros n (cl & Hcl & Hp). vm_compute in Hcl. injection Hcl as <-.
    vm_compute in Hp. injection Hp as <-. vm_compute. discriminate.
  - vm_compute. reflexivity.
Defined.

(** ** The response writer *)

Lemma quiet_read (r : BodyReader) : quiet (read r).
Proof.
  unfold read. destruct (read_closure r) as [remain | payload done].
  - destruct (remain =? 0); [apply quiet_ret|].
    apply quiet_bind; [apply quiet_getBuf | intros buf].
    apply quiet_bind.
    + destruct (length buf =? 0); [|apply quiet_ret].
      apply quiet_bind; [apply quiet_soRead | intros d].
      apply quiet_bind; [apply quiet_lift | intros buf'].
      apply quiet_bind; [apply quiet_setBuf | intros _].
      destruct (len d =? 0); [apply quiet_throw | apply quiet_ret].
    + intros _. apply quiet_bind; [apply quiet_getBuf | intros buf2].
      apply quiet_bind; [apply quiet_lift | intros buf'].
      apply quiet_bind; [apply quiet_setBuf | intros _; apply quiet_ret].
  - apply quiet_ret.
Qed.

Lemma stream_log (w : World) (e : Event) :
  stream (mkWorld (incoming w) (trace w ++ [e]) (dynbuf w)) = stream w.
Proof. reflexivity. Qed.

(** The loop of [writeHTTPResp] over a length-bounded reader: it writes the
    next [r] bytes of the stream and returns. *)
Lemma writeBody_drain (n : nat) : forall (fuel : nat) (w : World) (L r : Z),
  (Z.to_nat r <= n)%nat -> (n < fuel)%nat -> 0 <= r ->
  wf (dynbuf w) -> Forall nonempty (incoming w) -> r <= len (stream w) ->
  exists (chunks : list Buffer) (w' : World),
    writeBody fuel (mkBodyReader L (ConLengthRead r)) w = (Ok tt, w')
    /\ writes (trace w') = writes (trace w) ++ chunks
    /\ Forall nonempty chunks
    /\ List.concat chunks = firstn (Z.to_nat r) (stream w)
    /\ stream w' = skipn (Z.to_nat r) (stream w)
    /\ wf (dynbuf w').
Proof.
  induction n as [|n IH]; intros fuel w L r Hn Hfuel Hr Hwf Hne Hlen;
    (destruct fuel as [|fuel]; [lia|]).
  - assert (r = 0) by lia. subst r.
    exists [], w. cbn [writeBody]. unfold bind. cbn [read read_closure Z.eqb ret].
    change (Buffer_from (lit "")) with (@nil byte). cbn.
    rewrite app_nil_r. repeat split; try apply Hwf. constructor.
  - destruct (Z.eq_dec r 0) as [-> | Hnz].
    + exists [], w. cbn [writeBody]. unfold bind. cbn [read read_closure Z.eqb ret].
      change (Buffer_from (lit "")) with (@nil byte). cbn.
      rewrite app_nil_r. repeat split; try apply Hwf. constructor.
    + destruct (@read_step_stream w L r Hwf Hne ltac:(lia) Hlen)
        as (m & w1 & Hread & Hm & Hs1 & Hwf1 & Hne1).
      pose proof (quiet_read (mkBodyReader L (ConLengthRead r)) w) as Hq.
      rewrite Hread in Hq. cbn [snd] in Hq.
      set (chunk := firstn (Z.to_nat m) (stream w)) in *.
      assert (Hlc : len chunk = m) by (apply len_firstn; lia).
      set (w2 := mkWorld (incoming w1) (trace w1 ++ [EvWrite chunk]) (dynbuf w1)).
      assert (Hlen2 : r - m <= len (stream w2)).
      { unfold w2. rewrite stream_log, Hs1, len_skipn by lia. lia. }
      destruct (IH fuel w2 L (r - m) ltac:(lia) ltac:(lia) ltac:(lia) Hwf1 Hne1 Hlen2)
        as (chunks & w' & Hrun & Hwr & Hall & Hcat & Hs' & Hwf').
      exists (chunk :: chunks), w'.
      split; [|split; [|split; [|split; [|split]]]].
      * cbn [writeBody]. unfold bind at 1. rewrite Hread.
        destruct (len chunk =? 0) eqn:E; [apply Z.eqb_eq in E; lia|].
        unfold bind at 1. unfold soWrite, log. fold w2. exact Hrun.
      * rewrite Hwr. unfold w2. cbn [trace]. rewrite writes_app, Hq.
        cbn [writes]. now rewrite <- app_assoc.
      * constructor; [|exact Hall]. intros E. rewrite E in Hlc.
        unfold len in Hlc; simpl in Hlc. lia.
      * cbn [List.concat]. rewrite Hcat. unfold w2. rewrite stream_log, Hs1.
        replace (Z.to_nat r) with (Z.to_nat m + Z.to_nat (r - m))%nat by lia.
        now rewrite firstn_add_split.
      * rewrite Hs'. unfold w2. rewrite stream_log, Hs1, skipn_skipn. f_equal. lia.
      * exact Hwf'.
Qed.

(** X13.  [writeHTTPResp] on a response whose body is a length-bounded
    reader of [N] bytes ([N] at most [2^53]) that the connection holds, on a
    socket that takes what is written: with more than [N] turns of fuel it
    returns, having written the head, with the [Content-Length] line for [N]
    appended to the headers, and then non-empty chunks that are together the
    next [N] bytes of the stream; the bytes after them stay. *)
Theorem writeHTTPResp_length_bounded (fuel : nat) (c N : Z) (hs : list Buffer) (w : World) :
  0 <= N -> N <= 2 ^ 53 -> (Z.to_nat N < fuel)%nat ->
  wf (dynbuf w) -> Forall nonempty (incoming w) -> N <= len (stream w) ->
  exists (chunks : list Buffer) (w' : World),
    writeHTTPResp fuel (mkHTTPRes c hs (readerFromConLength N)) w = (Ok tt, w')
    /\ writes (trace w')
       = writes (trace w)
         ++ encodeHTTPResp
              (mkHTTPRes c (hs ++ [Buffer_from (lit "Content-Length: " ++ num_to_string N)])
                         (readerFromConLength N))
            :: chunks
    /\ Forall nonempty chunks
    /\ List.concat chunks = firstn (Z.to_nat N) (stream w)
    /\ stream w' = skipn (Z.to_nat N) (stream w).
Proof.
  intros HN _ Hfuel Hwf Hne Hlen.
  unfold writeHTTPResp. cbn [body body_length readerFromConLength code res_headers].
  destruct (N <? 0) eqn:E; [apply Z.ltb_lt in E; lia|].
  set (head := encodeHTTPResp _).
  set (w1 := mkWorld (incoming w) (trace w ++ [EvWrite head]) (dynbuf w)).
  destruct (@writeBody_drain (Z.to_nat N) fuel w1 N N (Nat.le_refl _) Hfuel HN
              Hwf Hne Hlen)
    as (chunks & w' & Hrun & Hwr & Hall & Hcat & Hs' & _).
  exists chunks, w'. split; [|split; [|split; [|split]]].
  - unfold bind, soWrite, log. fold w1. exact Hrun.
  - rewrite Hwr. unfold w1. cbn [trace]. rewrite writes_app. cbn [writes].
    now rewrite <- app_assoc.
  - exact Hall.
  - exact Hcat.
  - exact Hs'.
Qed.

Lemma writeHTTPResp_length_bounded_witness :
  exists (chunks : list Buffer) (w' : World),
    writeHTTPResp 12 (mkHTTPRes 200 [blit "Server:my_first_http_server"]
                                (readerFromConLength 11)) world_split_body
    = (Ok tt, w')
    /\ writes (trace w')
       = writes (trace world_split_body)
         ++ encodeHTTPResp
              (mkHTTPRes 200 ([blit "Server:my_first_http_server"]
                              ++ [Buffer_from (lit "Content-Length: " ++ num_to_string 11)])
                         (readerFromConLength 11))
            :: chunks
    /\ Forall nonempty chunks
    /\ List.concat chunks = firstn (Z.to_nat 11) (stream world_split_body)
    /\ stream w' = skipn (Z.to_nat 11) (stream world_split_body).
Proof.
  apply (@writeHTTPResp_length_bounded 12 200 11
           [blit "Server:my_first_http_server"] world_split_body).
  - lia.
  - vm_compute. discriminate.
  - vm_compute. lia.
  - split; vm_compute; discriminate.
  - repeat constructor; discriminate.
  - vm_compute. discriminate.
Defined.

Lemma latin1_ascii (h : Buffer) : ascii_bytes h -> ascii_text (toString_latin1 h).
Proof.
  intros H. unfold ascii_text, toString_latin1. rewrite Forall_map. exact H.
Qed.

Lemma Buffer_from_latin1_ascii (h : Buffer) :
  ascii_bytes h -> Buffer_from (toString_latin1 h) = h.
Proof.
  intros H. unfold Buffer_from.
  rewrite (utf8_encode_ascii (latin1_ascii H)).
  unfold toString_latin1. rewrite map_map.
  induction h as [|b h IH]; [reflexivity|].
  inversion H; subst. cbn [List.map]. now rewrite byte_of_N_to_N, IH.
Qed.

Lemma ascii_text_lit_check (s : jsstring) :
  forallb (fun c => (c <? 128)%N) s = true -> ascii_text s.
Proof.
  intros H. apply Forall_forall. intros c Hc.
  rewrite forallb_forall in H. apply N.ltb_lt. now apply H.
Qed.

Lemma Buffer_from_concat_ascii (parts : list jsstring) :
  Forall ascii_text parts ->
  Buffer_from (List.concat parts) = List.concat (List.map Buffer_from parts).
Proof.
  induction 1 as [|p parts Hp _ IH]; [reflexivity|].
  cbn [List.concat List.map]. now rewrite (Buffer_from_app_ascii _ Hp), IH.
Qed.

(** X14.  For headers of ASCII bytes the head [encodeHTTPResp] builds is,
    byte for byte, the status line [HTTP/1.1 <code> OK], each header line
    as it is, each followed by CRLF, and the blank line. *)
Theorem encodeHTTPResp_ascii (res : HTTPRes) :
  Forall ascii_bytes (res_headers res) ->
  encodeHTTPResp res
  = blit "HTTP/1.1 " ++ Buffer_from (num_to_string (code res)) ++ blit (" OK" ++ CR_LF)
    ++ List.concat (List.map (fun h => h ++ blit CR_LF) (res_headers res))
    ++ blit CR_LF.
Proof.
  intros Hhs. unfold encodeHTTPResp.
  assert (Hcrlf : ascii_text CRLF) by (apply ascii_text_lit_check; reflexivity).
  assert (Hstatus : ascii_text (lit "HTTP/1.1 " ++ num_to_string (code res)
                                ++ lit " OK" ++ CRLF)).
  { apply Forall_app. split; [apply ascii_text_lit_check; reflexivity|].
    apply Forall_app. split; [apply num_to_string_ascii|].
    apply ascii_text_lit_check; reflexivity. }
  rewrite Buffer_from_concat_ascii.
  - rewrite !map_app, !concat_app. cbn [List.map List.concat].
    rewrite !app_nil_r.
    rewrite (Buffer_from_app_ascii _ (ascii_text_lit_check (lit "HTTP/1.1 ") eq_refl)).
    rewrite (Buffer_from_app_ascii _ (num_to_string_ascii (code res))).
    rewrite map_map. rewrite <- !app_assoc. f_equal. f_equal. f_equal.
    f_equal. induction Hhs as [|h hs Hh _ IH]; [reflexivity|].
    cbn [List.map List.concat].
    rewrite (Buffer_from_app_ascii _ (latin1_ascii Hh)), (Buffer_from_latin1_ascii Hh).
    now rewrite IH.
  - apply Forall_app. split; [constructor; [exact Hstatus | constructor]|].
    apply Forall_app. split; [|constructor; [exact Hcrlf | constructor]].
    apply Forall_map. eapply Forall_impl; [|exact Hhs].
    intros h Hh. apply Forall_app. split; [now apply latin1_ascii | exact Hcrlf].
Qed.

Lemma encodeHTTPResp_ascii_witness :
  encodeHTTPResp (mkHTTPRes 200 [blit "Server:my_first_http_server"; blit "Content-Length: 13"]
                            (readerFromMemory hello_world))
  = blit "HTTP/1.1 " ++ Buffer_from (num_to_string 200) ++ blit (" OK" ++ CR_LF)
    ++ List.concat (List.map (fun h => h ++ blit CR_LF)
                             [blit "Server:my_first_http_server"; blit "Content-Length: 13"])
    ++ blit CR_LF.
Proof.
  apply (@encodeHTTPResp_ascii
           (mkHTTPRes 200 [blit "Server:my_first_http_server"; blit "Content-Length: 13"]
                      (readerFromMemory hello_world))).
  repeat constructor; vm_compute; reflexivity.
Defined.

(** ** How [serveClient] ends *)

Lemma has_terminator_prefix (a b : Buffer) :
  has_terminator a -> has_terminator (a ++ b).
Proof.
  intros (l1 & l2 & ->). exists l1, (l2 ++ b). now rewrite <- !app_assoc.
Qed.

Lemma cutMessage_need_more (buf : DynBuf) :
  ~ has_terminator (content buf) -> length buf < kMaxHeaderLen ->
  cutMessage buf = Ok (None, buf).
Proof.
  intros Hno Hlt. apply buf_indexOf_terminator in Hno. apply Z.ltb_lt in Hno.
  unfold content in Hno. unfold cutMessage. rewrite Hno.
  destruct (length buf >=? kMaxHeaderLen) eqn:E; [|reflexivity].
  rewrite Z.geb_leb in E. apply Z.leb_le in E. lia.
Qed.

(** The loop on chunks that never complete a header block and stay under
    the cap: it reads them all, then the end of the stream. *)
Lemma serveLoop_until_eof (chunks : list Buffer) : forall (fuel : nat) (w : World),
  incoming w = chunks -> wf (dynbuf w) -> Forall nonempty chunks ->
  ~ has_terminator (content (dynbuf w) ++ List.concat chunks) ->
  len (content (dynbuf w) ++ List.concat chunks) < kMaxHeaderLen ->
  (List.length chunks < fuel)%nat ->
  exists w' : World,
    serveLoop fuel w
    = (match content (dynbuf w) ++ List.concat chunks with
       | [] => Ok tt
       | _ => Throw (HTTPError 400 "Unexpected EOF")
       end, w')
    /\ incoming w' = []
    /\ trace w' = trace w ++ List.map EvRead chunks ++ [EvRead []].
Proof.
  induction chunks as [|d rest IH]; intros fuel w Hin Hwf Hne Hno Hlen Hfuel;
    (destruct fuel as [|fuel]; [simpl in Hfuel; lia|]).
  - cbn [List.concat] in *. rewrite app_nil_r in *.
    pose proof (len_content Hwf) as Hlc.
    destruct (bufPush_ok [] Hwf) as (b1 & Hpush & Hwf1 & Hlen1 & Hc1 & _).
    change (len (@nil byte)) with 0 in Hlen1. rewrite Z.add_0_r in Hlen1.
    cbn [serveLoop]. unfold bind at 1. unfold getBuf.
    unfold bind at 1. unfold lift at 1.
    rewrite (@cutMessage_need_more (dynbuf w) Hno) by lia.
    unfold bind at 1. unfold setBuf at 1. cbn [incoming trace dynbuf].
    unfold bind at 1. unfold soRead. cbn [incoming trace dynbuf]. rewrite Hin.
    unfold bind at 1. unfold lift at 1. rewrite Hpush.
    unfold bind at 1. unfold setBuf at 1. cbn [incoming trace dynbuf].
    change (len (@nil byte) =? 0) with true. cbn [andb]. rewrite Hlen1.
    destruct (content (dynbuf w)) as [|x c] eqn:Ec.
    + change (len (@nil byte)) with 0 in Hlc. rewrite <- Hlc.
      eexists. split; [reflexivity | split; reflexivity].
    + destruct (length (dynbuf w) =? 0) eqn:E.
      { apply Z.eqb_eq in E. rewrite E in Hlc. unfold len in Hlc; simpl in Hlc. lia. }
      eexists. split; [reflexivity | split; reflexivity].
  - inversion Hne as [|? ? Hd Hrest]; subst.
    assert (Hdpos : 0 < len d).
    { destruct d; [now contradiction Hd|]. unfold len; simpl List.length; lia. }
    cbn [List.concat] in Hno, Hlen.
    pose proof (len_content Hwf) as Hlc.
    rewrite !len_app in Hlen.
    pose proof (len_nonneg (List.concat rest)).
    destruct (bufPush_ok d Hwf) as (b1 & Hpush & Hwf1 & Hlen1 & Hc1 & _).
    assert (Hno0 : ~ has_terminator (content (dynbuf w))).
    { intros H'. apply Hno. now apply has_terminator_prefix. }
    set (w1 := mkWorld rest (trace w ++ [EvRead d]) b1).
    destruct (IH fuel w1 eq_refl Hwf1 Hrest) as (w' & Hrun & Hin' & Htr').
    + unfold w1; cbn [dynbuf]. now rewrite Hc1, <- app_assoc.
    + unfold w1; cbn [dynbuf]. rewrite Hc1, !len_app. lia.
    + simpl in Hfuel. lia.
    + exists w'. split; [|split; [exact Hin'|]].
      * cbn [serveLoop]. unfold bind at 1. unfold getBuf.
        unfold bind at 1. unfold lift at 1.
        rewrite (@cutMessage_need_more (dynbuf w) Hno0) by lia.
        unfold bind at 1. unfold setBuf at 1. cbn [incoming trace dynbuf].
        unfold bind at 1. unfold soRead. cbn [incoming trace dynbuf]. rewrite Hin.
        unfold bind at 1. unfold lift at 1. rewrite Hpush.
        unfold bind at 1. unfold setBuf at 1. cbn [incoming trace dynbuf].
        destruct (len d =? 0) eqn:E; [apply Z.eqb_eq in E; lia|]. cbn [andb].
        fold w1. rewrite Hrun. unfold w1; cbn [dynbuf]. rewrite Hc1.
        cbn [List.concat]. rewrite <- app_assoc.
        destruct (content (dynbuf w) ++ d ++ List.concat rest) eqn:Ez; [|reflexivity].
        exfalso. apply app_eq_nil in Ez as [_ Ez]. apply app_eq_nil in Ez as [Ez _].
        contradiction.
      * rewrite Htr'. unfold w1; cbn [trace List.map]. now rewrite <- app_assoc.
Qed.

(** X15.  A peer that closes before its bytes hold a [\r\n\r\n], having
    sent fewer than 8192 of them: [serveClient] reads every chunk and the
    end of the stream, writes nothing, and then returns cleanly if no byte
    came and throws the 400 protocol error [Unexpected EOF] otherwise. *)
Theorem serveClient_peer_closes (chunks : list Buffer) (fuel : nat) :
  Forall nonempty chunks ->
  ~ has_terminator (List.concat chunks) ->
  len (List.concat chunks) < kMaxHeaderLen ->
  (List.length chunks < fuel)%nat ->
  exists w' : World,
    serveClient fuel (connect chunks)
    = (match chunks with
       | [] => Ok tt
       | _ => Throw (HTTPError 400 "Unexpected EOF")
       end, w')
    /\ trace w' = List.map EvRead chunks ++ [EvRead []].
Proof.
  intros Hne Hno Hlen Hfuel.
  unfold serveClient, bind, setBuf, connect. cbn [incoming trace dynbuf].
  change (Buffer_alloc 0) with (@nil byte).
  set (w0 := mkWorld chunks [] (mkDynBuf [] 0)).
  destruct (@serveLoop_until_eof chunks fuel w0 eq_refl) as (w' & Hrun & _ & Htr);
    try assumption.
  - split; vm_compute; discriminate.
  - exists w'. split; [|exact Htr].
    rewrite Hrun. change (content (dynbuf w0)) with (@nil byte). cbn [app].
    destruct chunks as [|d rest]; [reflexivity|].
    inversion Hne; subst. cbn [List.concat].
    destruct d; [contradiction | reflexivity].
Qed.

Lemma serveClient_peer_closes_witness :
  exists w' : World,
    serveClient 3 (connect [blit "GET / HT"; blit "TP/1.1"])
    = (Throw (HTTPError 400 "Unexpected EOF"), w')
    /\ trace w' = List.map EvRead [blit "GET / HT"; blit "TP/1.1"] ++ [EvRead []].
Proof.
  apply (@serveClient_peer_closes [blit "GET / HT"; blit "TP/1.1"] 3).
  - repeat constructor; discriminate.
  - apply buf_indexOf_terminator. vm_compute. reflexivity.
  - vm_compute. reflexivity.
  - simpl. lia.
Defined.

Lemma cutMessage_outcomes (buf : DynBuf) :
  cutMessage buf = Ok (None, buf)
  \/ cutMessage buf = Throw (HTTPError 413 "header too large")
  \/ exists msg, cutMessage buf = Throw (HTTPError 400 msg).
Proof.
  destruct (Z.ltb_spec (buf_indexOf (content buf) CRLFCRLF) 0) as [Hlt | Hge].
  - unfold cutMessage. fold (content buf).
    apply Z.ltb_lt in Hlt. rewrite Hlt.
    destruct (length buf >=? kMaxHeaderLen); [right; left | left]; reflexivity.
  - right. right. apply cutMessage_terminated_400.
    unfold buf_indexOf in Hge. change (Buffer_from CRLFCRLF) with terminator in Hge.
    destruct (indexOf_from_spec Byte.eqb byte_eqb_eq terminator (content buf) 0)
      as [[Hn _] | (l1 & l2 & Hs & _)]; [lia|].
    now exists l1, l2.
Qed.

Lemma serveLoop_ends (fuel : nat) : forall w : World,
  wf (dynbuf w) -> (List.length (incoming w) < fuel)%nat ->
  served (fst (serveLoop fuel w)).
Proof.
  induction fuel as [|fuel IH]; intros w Hwf Hfuel; [lia|].
  cbn [serveLoop]. unfold bind at 1. unfold getBuf.
  unfold bind at 1. unfold lift at 1.
  destruct (cutMessage_outcomes (dynbuf w)) as [-> | [-> | [msg ->]]];
    [|constructor|constructor].
  unfold bind at 1. unfold setBuf at 1. cbn [incoming trace dynbuf].
  unfold bind at 1. unfold soRead. cbn [incoming trace dynbuf].
  destruct (incoming w) as [|d rest] eqn:Hin.
  - destruct (bufPush_ok [] Hwf) as (b1 & Hpush & _).
    unfold bind at 1. unfold lift at 1. rewrite Hpush.
    unfold bind at 1. unfold setBuf at 1. cbn [incoming trace dynbuf].
    change (len (@nil byte) =? 0) with true. cbn [andb].
    destruct (length b1 =? 0); constructor.
  - destruct (bufPush_ok d Hwf) as (b1 & Hpush & Hwf1 & _).
    unfold bind at 1. unfold lift at 1. rewrite Hpush.
    unfold bind at 1. unfold setBuf at 1. cbn [incoming trace dynbuf].
    destruct (len d =? 0); cbn [andb].
    + destruct (length b1 =? 0); constructor.
    + apply IH; cbn [dynbuf incoming]; [exact Hwf1 | simpl in Hfuel; lia].
Qed.

(** X16.  On a connection whose peer sends finitely many chunks and then
    closes, with no error on the socket (the connections [connect] builds),
    [serveClient] ends after at most one turn of its loop per chunk and one
    more, and only in three ways: a clean return, the 413 protocol error, or
    a 400 protocol error.  It does not fail with a [RangeError] of the
    buffer, nor with the 501 of the body-reader factory, which it does not
    reach. *)
Theorem serveClient_ends (chunks : list Buffer) (fuel : nat) :
  (List.length chunks < fuel)%nat ->
  served (fst (serveClient fuel (connect chunks))).
Proof.
  intros Hfuel. unfold serveClient, bind, setBuf, connect.
  cbn [incoming trace dynbuf]. apply serveLoop_ends; cbn [dynbuf incoming].
  - split; vm_compute; discriminate.
  - exact Hfuel.
Qed.

Lemma serveClient_ends_witness :
  served (fst (serveClient 2 (connect [get_root_wire]))).
Proof.
  apply (@serveClient_ends [get_root_wire] 2). simpl. lia.
Defined.

(** ** What is written, and by whom *)

(** X24.  [serveClient] never writes on the socket: whatever the connection
    holds and however many turns the loop takes, the writes on the log are
    those that were there before.  [newConn] writes only in its error path:
    when [serveClient] did not throw an [HTTPError], nothing is written on
    the connection at all. *)
Theorem serveClient_never_writes (fuel : nat) (w : World) :
  writes (trace (snd (serveClient fuel w))) = writes (trace w)
  /\ ((forall (c : Z) (message : string),
         fst (serveClient fuel w) <> Throw (HTTPError c message)) ->
      writes (trace (snd (newConn fuel w))) = writes (trace w)).
Proof.
  pose proof (quiet_serveClient fuel w) as Hq.
  split; [exact Hq|].
  intros Hno. unfold newConn.
  destruct (serveClient fuel w) as [[[] | e |] w1]; cbn [fst snd] in *.
  - unfold log. cbn [snd trace]. rewrite writes_app. cbn [writes].
    now rewrite app_nil_r.
  - destruct e as [c message | message | what].
    + now contradiction (Hno c message).
    + unfold log. cbn [snd trace]. rewrite writes_app. cbn [writes].
      now rewrite app_nil_r.
    + unfold log. cbn [snd trace]. rewrite writes_app. cbn [writes].
      now rewrite app_nil_r.
  - exact Hq.
Qed.

(** ** The header cap, from the first byte of a connection *)

Lemma cutMessage_too_large (buf : DynBuf) :
  ~ has_terminator (content buf) -> kMaxHeaderLen <= length buf ->
  cutMessage buf = Throw (HTTPError 413 "header too large").
Proof.
  intros Hno Hge. apply buf_indexOf_terminator in Hno. apply Z.ltb_lt in Hno.
  unfold content in Hno. unfold cutMessage. rewrite Hno.
  destruct (length buf >=? kMaxHeaderLen) eqn:E; [reflexivity|].
  rewrite Z.geb_leb in E. apply Z.leb_gt in E. lia.
Qed.

(** The loop on chunks [pre] that hold no terminator and of which the last
    one takes the buffer to the cap: it reads them and stops. *)
Lemma serveLoop_until_cap (pre : list Buffer) :
  forall (rest : list Buffer) (fuel : nat) (w : World),
    pre <> [] -> incoming w = pre ++ rest -> wf (dynbuf w) ->
    Forall nonempty pre ->
    ~ has_terminator (content (dynbuf w) ++ List.concat pre) ->
    len (content (dynbuf w) ++ List.concat (removelast pre)) < kMaxHeaderLen ->
    kMaxHeaderLen <= len (content (dynbuf w) ++ List.concat pre) ->
    (List.length pre < fuel)%nat ->
    exists buf' : DynBuf,
      serveLoop fuel w
      = (Throw (HTTPError 413 "header too large"),
         mkWorld rest (trace w ++ List.map EvRead pre) buf')
      /\ content buf' = content (dynbuf w) ++ List.concat pre.
Proof.
  induction pre as [|d pre IH];
    intros rest fuel w Hpre Hin Hwf Hne Hno Hsmall Hbig Hfuel; [contradiction|].
  destruct fuel as [|fuel]; [simpl in Hfuel; lia|].
  inversion Hne as [|? ? Hd Hrest]; subst.
  assert (Hdpos : 0 < len d).
  { destruct d; [now contradiction Hd|]. unfold len; simpl List.length; lia. }
  pose proof (len_content Hwf) as Hlc.
  destruct (bufPush_ok d Hwf) as (b1 & Hpush & Hwf1 & Hlen1 & Hc1 & _).
  pose proof (len_content Hwf1) as Hlc1.
  set (w1 := mkWorld (pre ++ rest) (trace w ++ [EvRead d]) b1).
  assert (Hsmall0 : length (dynbuf w) < kMaxHeaderLen).
  { rewrite len_app in Hsmall.
    pose proof (len_nonneg (List.concat (removelast (d :: pre)))). lia. }
  assert (Hno0 : ~ has_terminator (content (dynbuf w))).
  { intros H'. apply Hno. now apply has_terminator_prefix. }
  assert (Hstep : serveLoop (S fuel) w = serveLoop fuel w1).
  { cbn [serveLoop]. unfold bind at 1. unfold getBuf.
    unfold bind at 1. unfold lift at 1.
    rewrite (@cutMessage_need_more (dynbuf w) Hno0) by lia.
    unfold bind at 1. unfold setBuf at 1. cbn [incoming trace dynbuf].
    unfold bind at 1. unfold soRead. cbn [incoming trace dynbuf]. rewrite Hin.
    cbn [app].
    unfold bind at 1. unfold lift at 1. rewrite Hpush.
    unfold bind at 1. unfold setBuf at 1. cbn [incoming trace dynbuf].
    destruct (len d =? 0) eqn:E; [apply Z.eqb_eq in E; lia|]. reflexivity. }
  rewrite Hstep.
  destruct pre as [|d' pre'].
  - cbn [List.concat app] in *. rewrite app_nil_r in *.
    destruct fuel as [|fuel]; [simpl in Hfuel; lia|].
    exists b1. split; [|exact Hc1].
    cbn [serveLoop]. unfold bind at 1. unfold getBuf.
    unfold bind at 1. unfold lift at 1. unfold w1 at 1. cbn [dynbuf].
    rewrite (@cutMessage_too_large b1).
    + reflexivity.
    + now rewrite Hc1.
    + rewrite <- Hlc1, Hc1. exact Hbig.
  - destruct (IH rest fuel w1) as (buf' & Hrun & Hc'); try assumption.
    + discriminate.
    + reflexivity.
    + unfold w1; cbn [dynbuf]. rewrite Hc1, <- app_assoc. exact Hno.
    + unfold w1; cbn [dynbuf]. rewrite Hc1, <- app_assoc. exact Hsmall.
    + unfold w1; cbn [dynbuf]. rewrite Hc1, <- app_assoc. exact Hbig.
    + simpl in Hfuel |- *. lia.
    + exists buf'. split.
      * rewrite Hrun. unfold w1; cbn [trace List.map].
        now rewrite <- app_assoc.
      * rewrite Hc'. unfold w1; cbn [dynbuf]. rewrite Hc1, <- app_assoc. reflexivity.
Qed.

(** X18.  A peer that sends chunks without a [\r\n\r\n]: as soon as the
    bytes read reach 8192, [serveClient] throws the 413 protocol error.  It
    has read the chunks up to the one that reached the cap and no chunk
    after it, and it has written nothing. *)
Theorem serveClient_header_cap (pre rest : list Buffer) (fuel : nat) :
  pre <> [] -> Forall nonempty pre ->
  ~ has_terminator (List.concat pre) ->
  len (List.concat (removelast pre)) < kMaxHeaderLen ->
  kMaxHeaderLen <= len (List.concat pre) ->
  (List.length pre < fuel)%nat ->
  exists buf' : DynBuf,
    serveClient fuel (connect (pre ++ rest))
    = (Throw (HTTPError 413 "header too large"),
       mkWorld rest (List.map EvRead pre) buf')
    /\ content buf' = List.concat pre.
Proof.
  intros Hpre Hne Hno Hsmall Hbig Hfuel.
  unfold serveClient, bind, setBuf, connect. cbn [incoming trace dynbuf].
  change (Buffer_alloc 0) with (@nil byte).
  apply (@serveLoop_until_cap pre rest fuel
           (mkWorld (pre ++ rest) [] (mkDynBuf [] 0))); try assumption.
  - reflexivity.
  - split; vm_compute; discriminate.
Qed.

Lemma serveClient_header_cap_witness :
  exists buf' : DynBuf,
    serveClient 3 (connect ([Buffer_alloc 5000; Buffer_alloc 4000] ++ [blit "more"]))
    = (Throw (HTTPError 413 "header too large"),
       mkWorld [blit "more"] (List.map EvRead [Buffer_alloc 5000; Buffer_alloc 4000]) buf')
    /\ content buf' = List.concat [Buffer_alloc 5000; Buffer_alloc 4000].
Proof.
  apply (@serveClient_header_cap [Buffer_alloc 5000; Buffer_alloc 4000] [blit "more"] 3).
  - discriminate.
  - repeat constructor; vm_compute; discriminate.
  - apply buf_indexOf_terminator. vm_compute. reflexivity.
  - vm_compute. reflexivity.
  - vm_compute. discriminate.
  - simpl. lia.
Defined.

(** ** Lines and request lines of ASCII text *)

Lemma utf8_run_ascii (bs : list N) :
  Forall (fun c => (c < 128)%N) bs -> utf8_run None bs = bs.
Proof.
  induction 1 as [|b bs Hb _ IH]; [reflexivity|].
  cbn [utf8_run utf8_step]. unfold utf8_start.
  destruct (N.leb_spec b 127); [|lia]. cbn [app]. now rewrite IH.
Qed.

Lemma units_of_ascii (bs : list N) :
  Forall (fun c => (c < 128)%N) bs -> flat_map units_of bs = bs.
Proof.
  induction 1 as [|b bs Hb _ IH]; [reflexivity|].
  cbn [flat_map]. unfold units_of at 1.
  destruct (N.ltb_spec b 65536); [|lia]. cbn [app]. now rewrite IH.
Qed.

Lemma toString_ascii (d : Buffer) : ascii_bytes d -> toString d = toString_latin1 d.
Proof.
  intros H. unfold toString. fold (toString_latin1 d).
  pose proof (latin1_ascii H) as Ha.
  now rewrite (utf8_run_ascii Ha), (units_of_ascii Ha).
Qed.

Lemma Buffer_from_ascii_bytes (s : jsstring) : ascii_text s -> ascii_bytes (Buffer_from s).
Proof.
  intros H. unfold ascii_bytes, Buffer_from. rewrite (utf8_encode_ascii H).
  rewrite Forall_map. eapply Forall_impl; [|exact H].
  intros c Hc. cbv beta in *. rewrite byte_to_N_of_N by lia. exact Hc.
Qed.

Lemma toString_Buffer_from_ascii (s : jsstring) :
  ascii_text s -> toString (Buffer_from s) = s.
Proof.
  intros H. rewrite toString_ascii by now apply Buffer_from_ascii_bytes.
  now apply latin1_Buffer_from_ascii.
Qed.

Lemma split_go_nonempty (sep s : jsstring) : forall skip cur,
  split_go sep s skip cur <> [].
Proof.
  induction s as [|c s IH]; intros skip cur; cbn [split_go]; [discriminate|].
  destruct skip; [|apply IH].
  destruct (prefixb N.eqb sep (c :: s)); [discriminate | apply IH].
Qed.

Lemma join_cons {A : Type} (sep x : list A) (rest : list (list A)) :
  rest <> [] -> join sep (x :: rest) = x ++ sep ++ join sep rest.
Proof. destruct rest; [contradiction | reflexivity]. Qed.

(** Joining what [split] cut gives the text back. *)
Lemma split_go_join (n : nat) : forall (s cur : jsstring),
  (List.length s <= n)%nat -> join CRLF (split_go CRLF s 0 cur) = cur ++ s.
Proof.
  induction n as [|n IH]; intros s cur Hn.
  - destruct s; [|simpl in Hn; lia]. cbn [split_go join]. now rewrite app_nil_r.
  - destruct s as [|c s]; [cbn [split_go join]; now rewrite app_nil_r|].
    cbn [split_go]. destruct (prefixb N.eqb CRLF (c :: s)) eqn:E.
    + change CRLF with [13; 10]%N in E. cbn [prefixb] in E.
      destruct s as [|c' s]; [rewrite andb_false_r in E; discriminate|].
      rewrite !andb_true_iff in E. destruct E as (Ec & Ec' & _).
      apply N.eqb_eq in Ec. apply N.eqb_eq in Ec'. subst c c'.
      change (List.length CRLF - 1)%nat with 1%nat.
      unfold jsstring in *.
      rewrite join_cons by apply split_go_nonempty.
      cbn [split_go]. rewrite IH by (simpl in Hn; lia).
      reflexivity.
    + rewrite IH by (simpl in Hn; lia). now rewrite <- app_assoc.
Qed.

Lemma split_join (s : jsstring) : join CRLF (split s CRLF) = s.
Proof. unfold split. now rewrite (@split_go_join (List.length s) s []). Qed.

Lemma in_join {A : Type} (sep : list A) (segs : list (list A)) (seg : list A) (c : A) :
  In seg segs -> In c seg -> In c (join sep segs).
Proof.
  induction segs as [|x segs IH]; [intros []|].
  intros Hseg Hc. destruct segs as [|y segs].
  - destruct Hseg as [-> | []]. exact Hc.
  - rewrite join_cons by discriminate. destruct Hseg as [-> | Hseg].
    + apply in_or_app. now left.
    + apply in_or_app. right. apply in_or_app. right. now apply IH.
Qed.

Lemma Buffer_from_join (sep : jsstring) (segs : list jsstring) :
  ascii_text sep -> Forall ascii_text segs ->
  Buffer_from (join sep segs) = join (Buffer_from sep) (List.map Buffer_from segs).
Proof.
  intros Hsep Hsegs. induction Hsegs as [|x segs Hx Hrest IH]; [reflexivity|].
  destruct segs as [|y segs]; [reflexivity|].
  unfold jsstring, Buffer in *.
  rewrite join_cons by discriminate.
  cbn [List.map].
  rewrite (@join_cons byte (Buffer_from sep) (Buffer_from x)) by discriminate.
  rewrite (Buffer_from_app_ascii _ Hx), (Buffer_from_app_ascii _ Hsep).
  now rewrite IH.
Qed.

(** X19.  [splitLines] loses nothing of ASCII data: its lines, joined by
    CRLF, are the data. *)
Theorem splitLines_join (d : Buffer) :
  ascii_bytes d -> join (blit CR_LF) (splitLines d) = d.
Proof.
  intros Hd. unfold splitLines.
  rewrite (toString_ascii Hd).
  pose proof (latin1_ascii Hd) as Hs.
  change (blit CR_LF) with (Buffer_from CRLF).
  rewrite <- Buffer_from_join.
  - rewrite split_join. now apply Buffer_from_latin1_ascii.
  - apply ascii_text_lit_check. reflexivity.
  - apply Forall_forall. intros seg Hseg.
    apply Forall_forall. intros c Hc.
    assert (Hin : In c (toString_latin1 d)).
    { rewrite <- (split_join (toString_latin1 d)). eapply in_join; eassumption. }
    unfold ascii_text in Hs. rewrite Forall_forall in Hs. now apply Hs.
Qed.

Lemma splitLines_join_witness :
  join (blit CR_LF) (splitLines get_root_wire) = get_root_wire.
Proof.
  apply (@splitLines_join get_root_wire).
  apply Forall_forall. intros b Hb.
  assert (G : forallb (fun x => (Byte.to_N x <? 128)%N) get_root_wire = true)
    by (vm_compute; reflexivity).
  rewrite forallb_forall in G. apply N.ltb_lt. now apply G.
Defined.

Lemma split_go_space_free (a : jsstring) : forall (rest cur : jsstring),
  ~ In 32%N a ->
  split_go (lit " ") (a ++ rest) 0 cur = split_go (lit " ") rest 0 (cur ++ a).
Proof.
  induction a as [|c a IH]; intros rest cur Hno.
  - now rewrite app_nil_r.
  - cbn [app split_go]. change (lit " ") with [32%N]. cbn [prefixb].
    assert (Hc : (32 =? c)%N = false).
    { apply N.eqb_neq. intros <-. apply Hno. now left. }
    rewrite Hc. cbn [andb]. change [32%N] with (lit " ").
    rewrite IH by (intros H; apply Hno; now right).
    now rewrite <- app_assoc.
Qed.

Lemma split_go_at_space (rest cur : jsstring) :
  split_go (lit " ") (32%N :: rest) 0 cur = cur :: split_go (lit " ") rest 0 [].
Proof. reflexivity. Qed.

Lemma no_space_no_blank (s : jsstring) : no_space s -> ~ In 32%N s.
Proof.
  intros H Hin. unfold no_space in H. rewrite Forall_forall in H.
  apply H in Hin. discriminate.
Qed.

Lemma trimEnd_no_space (a t : jsstring) :
  no_space t -> t <> [] -> trimEnd (a ++ t) = a ++ t.
Proof.
  intros Ht Hne. unfold trimEnd. rewrite rev_app_distr.
  assert (Hrev : no_space (rev t)) by now apply Forall_rev.
  destruct (rev t) as [|c r] eqn:E.
  - exfalso. apply Hne. rewrite <- (rev_involutive t), E. reflexivity.
  - inversion Hrev; subst. cbn [app]. rewrite trimStart_id by assumption.
    change (c :: r ++ rev a) with ((c :: r) ++ rev a).
    now rewrite <- E, <- rev_app_distr, rev_involutive.
Qed.

(** X20.  [parseRequestLine] on [METHOD SP TARGET SP HTTP/VERSION], the
    three parts being ASCII text without white space and the method not
    empty, returns the method, the target as a buffer and the version
    without its [HTTP/] prefix. *)
Theorem parseRequestLine_ok (m u v : jsstring) :
  ascii_text m -> ascii_text u -> ascii_text v ->
  no_space m -> no_space u -> no_space v -> m <> [] ->
  parseRequestLine (Buffer_from (m ++ lit " " ++ u ++ lit " HTTP/" ++ v))
  = Ok (m, Buffer_from u, v).
Proof.
  intros Am Au Av Sm Su Sv Hm.
  assert (Hhttp : ascii_text (lit "HTTP/")) by (apply ascii_text_lit_check; reflexivity).
  assert (Hsp : ascii_text (lit " ")) by (apply ascii_text_lit_check; reflexivity).
  unfold parseRequestLine.
  rewrite toString_Buffer_from_ascii.
  2:{ repeat (apply Forall_app; split); try assumption.
      apply ascii_text_lit_check; reflexivity. }
  assert (Htrim : trim (m ++ lit " " ++ u ++ lit " HTTP/" ++ v)
                  = m ++ lit " " ++ u ++ lit " HTTP/" ++ v).
  { unfold trim. destruct m as [|c m]; [contradiction|].
    inversion Sm; subst. cbn [app]. rewrite trimStart_id by assumption.
    replace (c :: m ++ lit " " ++ u ++ lit " HTTP/" ++ v)
      with (((c :: m) ++ lit " " ++ u ++ lit " HTTP") ++ (47%N :: v))
      by (rewrite <- !app_assoc; reflexivity).
    apply trimEnd_no_space; [|discriminate].
    constructor; [reflexivity | exact Sv]. }
  rewrite Htrim.
  assert (Hsplit : split (m ++ lit " " ++ u ++ lit " HTTP/" ++ v) (lit " ")
                   = [m; u; lit "HTTP/" ++ v]).
  { unfold split.
    rewrite split_go_space_free by now apply no_space_no_blank.
    change (lit " " ++ u ++ lit " HTTP/" ++ v) with (32%N :: u ++ lit " HTTP/" ++ v).
    rewrite split_go_at_space. cbn [app]. f_equal.
    rewrite split_go_space_free by now apply no_space_no_blank.
    change (lit " HTTP/" ++ v) with (32%N :: (lit "HTTP/" ++ v)).
    rewrite split_go_at_space. cbn [app]. f_equal.
    rewrite <- (app_nil_r (lit "HTTP/" ++ v)) at 1.
    rewrite split_go_space_free.
    - reflexivity.
    - intros Hin. apply in_app_or in Hin as [Hin | Hin].
      + vm_compute in Hin. intuition discriminate.
      + now apply (no_space_no_blank Sv). }
  rewrite Hsplit.
  assert (Hstart : startsWith (lit "HTTP/" ++ v) (lit "HTTP/") = true).
  { unfold startsWith. apply (prefixb_iff N.eqb N_eqb_eq). now exists v. }
  rewrite Hstart. cbn [negb]. unfold slice_from.
  change (Z.to_nat 5) with (List.length (lit "HTTP/")).
  now rewrite skipn_app_exact_len.
Qed.

Lemma parseRequestLine_ok_witness :
  parseRequestLine (Buffer_from (lit "GET" ++ lit " " ++ lit "/index.html"
                                 ++ lit " HTTP/" ++ lit "1.1"))
  = Ok (lit "GET", Buffer_from (lit "/index.html"), lit "1.1").
Proof.
  apply (@parseRequestLine_ok (lit "GET") (lit "/index.html") (lit "1.1"));
    try (apply ascii_text_lit_check; reflexivity);
    try (repeat constructor); discriminate.
Defined.

(** ** The pieces, composed *)

Lemma readerFromReq_content_length (req : HTTPReq) (N : Z) :
  body_allowed req -> content_length_is req N -> 0 <= N ->
  readerFromReq req = Ok (readerFromConLength N).
Proof.
  intros Hallowed (cl & Hcl & Hparse) HN.
  apply body_allowed_flag in Hallowed.
  unfold readerFromReq. rewrite Hcl, Hparse. cbn [rbind].
  rewrite Hallowed. cbn [negb andb].
  destruct (N >=? 0) eqn:E; [reflexivity|].
  rewrite Z.geb_leb in E. apply Z.leb_gt in E. lia.
Qed.

(** X21.  The reader of a request for [/echo] with a body of [N] bytes ([N]
    at most [2^53]), handed to [HandleReq] and its response to
    [writeHTTPResp], on a socket that takes what is written: the response
    written is the head, with status 200, the [Server] header and
    [Content-Length: N], followed by exactly the [N] bytes of the request
    body, and the bytes of the next request stay in the buffer. *)
Theorem echo_pipeline (req : HTTPReq) (N : Z) (fuel : nat) (w : World) :
  toString_latin1 (uri req) = lit "/echo" ->
  body_allowed req -> content_length_is req N -> 0 <= N -> N <= 2 ^ 53 ->
  (Z.to_nat N < fuel)%nat ->
  wf (dynbuf w) -> Forall nonempty (incoming w) -> N <= len (stream w) ->
  exists (r : BodyReader) (chunks : list Buffer) (w' : World),
    readerFromReq req = Ok r
    /\ writeHTTPResp fuel (HandleReq req r) w = (Ok tt, w')
    /\ writes (trace w')
       = writes (trace w)
         ++ encodeHTTPResp
              (mkHTTPRes 200 [blit "Server:my_first_http_server";
                              Buffer_from (lit "Content-Length: " ++ num_to_string N)] r)
            :: chunks
    /\ List.concat chunks = firstn (Z.to_nat N) (stream w)
    /\ stream w' = skipn (Z.to_nat N) (stream w).
Proof.
  intros Huri Hallowed Hcl HN _ Hfuel Hwf Hne Hlen.
  exists (readerFromConLength N).
  unfold HandleReq. rewrite Huri.
  change (str_eqb (lit "/echo") (lit "/echo")) with true. cbv iota.
  change (Buffer_from (lit "Server:my_first_http_server"))
    with (blit "Server:my_first_http_server").
  unfold writeHTTPResp. cbn [body body_length readerFromConLength code res_headers app].
  destruct (N <? 0) eqn:E; [apply Z.ltb_lt in E; lia|].
  set (head := encodeHTTPResp _).
  set (w1 := mkWorld (incoming w) (trace w ++ [EvWrite head]) (dynbuf w)).
  destruct (@writeBody_drain (Z.to_nat N) fuel w1 N N (Nat.le_refl _) Hfuel HN
              Hwf Hne Hlen)
    as (chunks & w' & Hrun & Hwr & _ & Hcat & Hs' & _).
  exists chunks, w'.
  split; [now apply readerFromReq_content_length|].
  split; [unfold bind, soWrite, log; fold w1; exact Hrun|].
  split; [|split; [exact Hcat | exact Hs']].
  rewrite Hwr. unfold w1. cbn [trace]. rewrite writes_app. cbn [writes].
  now rewrite <- app_assoc.
Qed.

Lemma echo_pipeline_witness :
  exists (r : BodyReader) (chunks : list Buffer) (w' : World),
    readerFromReq req_post_11 = Ok r
    /\ writeHTTPResp 12 (HandleReq req_post_11 r) world_split_body = (Ok tt, w')
    /\ writes (trace w')
       = writes (trace world_split_body)
         ++ encodeHTTPResp
              (mkHTTPRes 200 [blit "Server:my_first_http_server";
                              Buffer_from (lit "Content-Length: " ++ num_to_string 11)] r)
            :: chunks
    /\ List.concat chunks = firstn (Z.to_nat 11) (stream world_split_body)
    /\ stream w' = skipn (Z.to_nat 11) (stream world_split_body).
Proof.
  apply (@echo_pipeline req_post_11 11 12 world_split_body).
  - reflexivity.
  - split; vm_compute; discriminate.
  - exists (blit "11"). split; vm_compute; reflexivity.
  - lia.
  - vm_compute. discriminate.
  - vm_compute. lia.
  - split; vm_compute; discriminate.
  - repeat constructor; discriminate.
  - vm_compute. discriminate.
Defined.

Lemma tchar_not_space (c : N) : is_tchar c = true -> is_space c = false.
Proof.
  intros H. pose proof (is_tchar_below c H) as Hlt.
  assert (G : forallb (fun n => implb (is_tchar n) (negb (is_space n)))
                      (List.map N.of_nat (seq 0 128)) = true)
    by (vm_compute; reflexivity).
  rewrite forallb_forall in G.
  assert (Hin : In c (List.map N.of_nat (seq 0 128))).
  { apply in_map_iff. exists (N.to_nat c). split; [lia|]. apply in_seq. lia. }
  specialize (G c Hin). rewrite H in G. cbn [implb] in G.
  now apply negb_true_iff in G.
Qed.

Lemma trim_tokens (name : jsstring) :
  name <> [] -> forallb is_tchar name = true -> trim name = name.
Proof.
  intros Hne Hall. unfold trim.
  assert (Hns : no_space name).
  { apply Forall_forall. intros c Hc. rewrite forallb_forall in Hall.
    now apply tchar_not_space, Hall. }
  destruct name as [|c name]; [contradiction|].
  inversion Hns; subst. rewrite trimStart_id by assumption.
  now apply (trimEnd_no_space []).
Qed.

(** X22.  A header line of ASCII bytes that [validateHeader] accepts is
    found by [fieldGet] under its own name, whatever follows it in the
    list: what the parser lets through, the lookup can read. *)
Theorem validated_header_is_found (h : Buffer) (hs : list Buffer) :
  ascii_bytes h -> validateHeader h = true ->
  exists name value : jsstring,
    toString_latin1 h = name ++ 58%N :: value
    /\ fieldGet (h :: hs) name = Some (Buffer_from (trim value)).
Proof.
  intros Hascii Hvalid.
  apply validateHeader_true_shape in Hvalid as (name & value & Hs & Hne & Htok & _).
  rewrite (toString_ascii Hascii) in Hs.
  assert (Hall : forallb is_tchar name = true).
  { apply forallb_forall. intros c Hc. now apply is_tchar_iff, Htok. }
  exists name, value. split; [exact Hs|].
  unfold fieldGet. apply fieldGet_lower_match.
  exists name, value. split; [|split; [|reflexivity]].
  - split; [exact Hs|]. split; [now apply forallb_tchar_no_colon | exact Hne].
  - now rewrite (trim_tokens Hne Hall).
Qed.

Lemma validated_header_is_found_witness :
  exists name value : jsstring,
    toString_latin1 (blit "Host: example") = name ++ 58%N :: value
    /\ fieldGet (blit "Host: example" :: [blit "host: other"]) name
       = Some (Buffer_from (trim value)).
Proof.
  apply (@validated_header_is_found (blit "Host: example") [blit "host: other"]).
  - repeat constructor; vm_compute; reflexivity.
  - vm_compute. reflexivity.
Defined.

(** ** A body cut short *)

(** One pull on a stream that still holds bytes. *)
Lemma read_step_available (w : World) (L r : Z) :
  wf (dynbuf w) -> Forall nonempty (incoming w) ->
  0 < r -> 0 < len (stream w) ->
  exists (m : Z) (w1 : World),
    read (mkBodyReader L (ConLengthRead r)) w
    = (Ok (firstn (Z.to_nat m) (stream w), mkBodyReader L (ConLengthRead (r - m))), w1)
    /\ 0 < m <= r /\ m <= len (stream w)
    /\ stream w1 = skipn (Z.to_nat m) (stream w)
    /\ wf (dynbuf w1) /\ Forall nonempty (incoming w1).
Proof.
  intros Hwf Hne Hr Hlen.
  pose proof (len_content Hwf) as Hlc.
  unfold stream in *.
  destruct (Z.eq_dec (length (dynbuf w)) 0) as [El | El].
  - assert (Hc0 : content (dynbuf w) = []) by (apply len_nil_inv; lia).
    rewrite Hc0 in *. cbn [app] in *.
    destruct (incoming w) as [|d rest] eqn:Hin.
    { unfold len in Hlen; simpl in Hlen; lia. }
    inversion Hne as [|? ? Hd Hrest]; subst.
    destruct (@read_refill w L r d rest Hwf Hr El Hin Hd)
      as (buf' & Hread & Hwf' & Hc').
    assert (0 < len d).
    { destruct d; [now contradiction Hd|]. unfold len; simpl List.length; lia. }
    set (m := Z.min (len d) r) in *.
    assert (Hmd : (Z.to_nat m <= List.length d)%nat) by (unfold len in *; lia).
    exists m. eexists. split; [|split; [lia|split]].
    + cbn [List.concat]. rewrite firstn_app_within by exact Hmd. exact Hread.
    + cbn [List.concat]. rewrite len_app.
      pose proof (len_nonneg (List.concat rest)). lia.
    + cbn [dynbuf incoming List.concat].
      rewrite skipn_app_within by exact Hmd. rewrite Hc'.
      split; [reflexivity|]. split; assumption.
  - assert (0 < len (content (dynbuf w))) by (destruct Hwf; lia).
    destruct (@read_from_buffer w L r Hwf Hr El) as (buf' & Hread & Hwf' & Hc').
    set (m := Z.min (len (content (dynbuf w))) r) in *.
    assert (Hmd : (Z.to_nat m <= List.length (content (dynbuf w)))%nat)
      by (unfold len in *; lia).
    exists m. eexists. split; [|split; [lia|split]].
    + rewrite firstn_app_within by exact Hmd. exact Hread.
    + rewrite len_app. pose proof (len_nonneg (List.concat (incoming w))). lia.
    + cbn [dynbuf incoming].
      rewrite skipn_app_within by exact Hmd. rewrite Hc'.
      split; [reflexivity|]. split; assumption.
Qed.

Lemma stream_empty (w : World) :
  wf (dynbuf w) -> Forall nonempty (incoming w) -> len (stream w) = 0 ->
  length (dynbuf w) = 0 /\ incoming w = [].
Proof.
  intros Hwf Hne Hlen. unfold stream in Hlen. rewrite len_app in Hlen.
  pose proof (len_content Hwf) as Hlc.
  pose proof (len_nonneg (content (dynbuf w))).
  pose proof (len_nonneg (List.concat (incoming w))).
  split; [lia|].
  destruct (incoming w) as [|d rest]; [reflexivity|].
  inversion Hne as [|? ? Hd _]; subst. cbn [List.concat] in *.
  rewrite len_app in *. pose proof (len_nonneg (List.concat rest)).
  destruct d; [now contradiction Hd|]. unfold len in *; simpl List.length in *. lia.
Qed.

(** The writer's loop over a reader that waits for more bytes than will
    come: it writes what there is, then the pull fails. *)
Lemma writeBody_truncated (n : nat) : forall (fuel : nat) (w : World) (L r : Z),
  (Z.to_nat (len (stream w)) <= n)%nat -> (n < fuel)%nat ->
  wf (dynbuf w) -> Forall nonempty (incoming w) -> len (stream w) < r ->
  exists (chunks : list Buffer) (w' : World),
    writeBody fuel (mkBodyReader L (ConLengthRead r)) w
    = (Throw (Error "Unexpected EOF in body"), w')
    /\ writes (trace w') = writes (trace w) ++ chunks
    /\ List.concat chunks = stream w.
Proof.
  induction n as [|n IH]; intros fuel w L r Hn Hfuel Hwf Hne Hlen;
    (destruct fuel as [|fuel]; [lia|]);
    pose proof (len_nonneg (stream w)) as Hs0.
  - assert (Hz : len (stream w) = 0) by lia.
    destruct (@stream_empty w Hwf Hne Hz) as [El Hin].
    destruct (@read_eof w L r Hwf ltac:(lia) El) as (buf' & Hread & _).
    { now rewrite Hin. }
    pose proof (quiet_read (mkBodyReader L (ConLengthRead r)) w) as Hq.
    rewrite Hread in Hq. cbn [snd] in Hq.
    exists []. eexists. split; [|split].
    + cbn [writeBody]. unfold bind at 1. rewrite Hread. reflexivity.
    + rewrite Hq. now rewrite app_nil_r.
    + symmetry. now apply len_nil_inv.
  - destruct (Z.eq_dec (len (stream w)) 0) as [Hz | Hnz].
    + destruct (@stream_empty w Hwf Hne Hz) as [El Hin].
      destruct (@read_eof w L r Hwf ltac:(lia) El) as (buf' & Hread & _).
      { now rewrite Hin. }
      pose proof (quiet_read (mkBodyReader L (ConLengthRead r)) w) as Hq.
      rewrite Hread in Hq. cbn [snd] in Hq.
      exists []. eexists. split; [|split].
      * cbn [writeBody]. unfold bind at 1. rewrite Hread. reflexivity.
      * rewrite Hq. now rewrite app_nil_r.
      * symmetry. now apply len_nil_inv.
    + destruct (@read_step_available w L r Hwf Hne ltac:(lia) ltac:(lia))
        as (m & w1 & Hread & Hm & Hml & Hs1 & Hwf1 & Hne1).
      pose proof (quiet_read (mkBodyReader L (ConLengthRead r)) w) as Hq.
      rewrite Hread in Hq. cbn [snd] in Hq.
      set (chunk := firstn (Z.to_nat m) (stream w)) in *.
      assert (Hlc : len chunk = m) by (apply len_firstn; lia).
      set (w2 := mkWorld (incoming w1) (trace w1 ++ [EvWrite chunk]) (dynbuf w1)).
      assert (Hlen2 : len (stream w2) = len (stream w) - m).
      { unfold w2. rewrite stream_log, Hs1, len_skipn by lia. reflexivity. }
      destruct (IH fuel w2 L (r - m) ltac:(lia) ltac:(lia) Hwf1 Hne1 ltac:(lia))
        as (chunks & w' & Hrun & Hwr & Hcat).
      exists (chunk :: chunks), w'. split; [|split].
      * cbn [writeBody]. unfold bind at 1. rewrite Hread.
        destruct (len chunk =? 0) eqn:E; [apply Z.eqb_eq in E; lia|].
        unfold bind at 1. unfold soWrite, log. fold w2. exact Hrun.
      * rewrite Hwr. unfold w2. cbn [trace]. rewrite writes_app, Hq.
        cbn [writes]. now rewrite <- app_assoc.
      * cbn [List.concat]. rewrite Hcat. unfold w2. rewrite stream_log, Hs1.
        apply firstn_skipn.
Qed.

(** X23.  [writeHTTPResp] on a response whose length-bounded body waits for
    [N] bytes ([N] at most [2^53]), more than the peer sends before it
    closes, on a socket that takes what is written: it writes the head,
    announcing [N] bytes, then the bytes that did arrive, and then fails
    with the plain [Error] [Unexpected EOF in body], not with an
    [HTTPError]. *)
Theorem writeHTTPResp_truncated_body
        (fuel : nat) (c N : Z) (hs : list Buffer) (w : World) :
  wf (dynbuf w) -> Forall nonempty (incoming w) ->
  len (stream w) < N -> N <= 2 ^ 53 -> (Z.to_nat (len (stream w)) < fuel)%nat ->
  exists (chunks : list Buffer) (w' : World),
    writeHTTPResp fuel (mkHTTPRes c hs (readerFromConLength N)) w
    = (Throw (Error "Unexpected EOF in body"), w')
    /\ writes (trace w')
       = writes (trace w)
         ++ encodeHTTPResp
              (mkHTTPRes c (hs ++ [Buffer_from (lit "Content-Length: " ++ num_to_string N)])
                         (readerFromConLength N))
            :: chunks
    /\ List.concat chunks = stream w.
Proof.
  intros Hwf Hne Hlen _ Hfuel.
  pose proof (len_nonneg (stream w)) as Hs0.
  unfold writeHTTPResp. cbn [body body_length readerFromConLength code res_headers].
  destruct (N <? 0) eqn:E; [apply Z.ltb_lt in E; lia|].
  set (head := encodeHTTPResp _).
  set (w1 := mkWorld (incoming w) (trace w ++ [EvWrite head]) (dynbuf w)).
  destruct (@writeBody_truncated (Z.to_nat (len (stream w))) fuel w1 N N
              (Nat.le_refl _) Hfuel Hwf Hne Hlen)
    as (chunks & w' & Hrun & Hwr & Hcat).
  exists chunks, w'. split; [|split].
  - unfold bind, soWrite, log. fold w1. exact Hrun.
  - rewrite Hwr. unfold w1. cbn [trace]. rewrite writes_app. cbn [writes].
    now rewrite <- app_assoc.
  - exact Hcat.
Qed.

Lemma writeHTTPResp_truncated_body_witness :
  exists (chunks : list Buffer) (w' : World),
    writeHTTPResp 20 (mkHTTPRes 200 [] (readerFromConLength 100)) world_split_body
    = (Throw (Error "Unexpected EOF in body"), w')
    /\ writes (trace w')
       = writes (trace world_split_body)
         ++ encodeHTTPResp
              (mkHTTPRes 200 ([] ++ [Buffer_from (lit "Content-Length: "
                                                  ++ num_to_string 100)])
                         (readerFromConLength 100))
            :: chunks
    /\ List.concat chunks = stream world_split_body.
Proof.
  apply (@writeHTTPResp_truncated_body 20 200 100 [] world_split_body).
  - split; vm_compute; discriminate.
  - repeat constructor; discriminate.
  - vm_compute. reflexivity.
  - vm_compute. discriminate.
  - vm_compute. lia.
Defined.
